(** * Measurement extraction of [WikipediaInspector.ts]

    A shallow embedding of [extractColumnData], [getColumns] and
    [generateChart] (src/services/WikipediaInspector.ts, lines 14-159)
    together with the pieces of the JavaScript runtime they call:
    strings of UTF-16 code units, [String.prototype.trim],
    [String.prototype.match] on the two regular expressions of the file
    (a backtracking matcher), [String.prototype.replace] with a string
    pattern, [parseFloat], [isNaN] and binary64 arithmetic. *)

From Stdlib Require Import List Bool Arith NArith ZArith Lia String Ascii QArith.
From Stdlib Require Import QArith.Qabs Sorting.Sorted Floats.SpecFloat.
From Stdlib Require Import Numbers.DecimalString.
Import ListNotations.
Close Scope Q_scope.

Set Implicit Arguments.

(** ** JavaScript strings *)

Module JsString.

(** A string is a sequence of 16-bit code units. *)
Definition codeunit := N.
Definition jsstring := list codeunit.

(** The code unit of an ASCII character. *)
Definition ch (a : ascii) : codeunit := N_of_ascii a.

(** An ASCII literal, unit by unit. *)
Definition lit (s : string) : jsstring :=
  List.map ch (list_ascii_of_string s).

(** WhiteSpace and LineTerminator code points: what [trim] strips and what
    the class [\s] accepts. *)
Definition isWhiteSpace (c : codeunit) : bool :=
  existsb (N.eqb c)
    [9; 10; 11; 12; 13; 32; 160; 5760; 8232; 8233; 8239; 8287; 12288; 65279]%N
  || ((8192 <=? c) && (c <=? 8202))%N.

(** The class [\d]: ASCII digits only. *)
Definition isDigit (c : codeunit) : bool := ((48 <=? c) && (c <=? 57))%N.

Fixpoint dropWhile (p : codeunit -> bool) (s : jsstring) : jsstring :=
  match s with
  | c :: s' => if p c then dropWhile p s' else s
  | [] => []
  end.

Definition trimStart (s : jsstring) : jsstring := dropWhile isWhiteSpace s.
Definition trimEnd (s : jsstring) : jsstring := rev (dropWhile isWhiteSpace (rev s)).
Definition trim (s : jsstring) : jsstring := trimEnd (trimStart s).

Fixpoint startsWith (pat s : jsstring) : bool :=
  match pat, s with
  | [], _ => true
  | p :: pat', c :: s' => N.eqb p c && startsWith pat' s'
  | _ :: _, [] => false
  end.

(** [s.replace(pat, rep)] for a string pattern: the first occurrence only.
    ([rep] holds no dollar sign here, so it is inserted as it is.) *)
Fixpoint replace (pat rep s : jsstring) : jsstring :=
  if startsWith pat s then rep ++ skipn (List.length pat) s
  else match s with
       | [] => []
       | c :: s' => c :: replace pat rep s'
       end.

End JsString.
Import JsString.

(** ** Regular expressions: a backtracking matcher *)

Module RegExp.

(** The fragment of the pattern language the two expressions use. A group
    carries its number (the rank of its opening parenthesis). *)
Inductive regex : Type :=
| Char (c : codeunit)
| Class (p : codeunit -> bool)
| Seq (r1 r2 : regex)
| Star (r : regex)
| Plus (r : regex)
| Opt (r : regex)
| Group (i : nat) (r : regex).

(** The result array: entry 0 is the whole match, entry [i] is group [i],
    [None] standing for [undefined]. *)
Definition captures := list (option jsstring).

Fixpoint setCapture (i : nat) (v : option jsstring) (cap : captures) : captures :=
  match i, cap with
  | O, _ :: cap' => v :: cap'
  | S i', c :: cap' => c :: setCapture i' v cap'
  | _, [] => []
  end.

Fixpoint groupsOf (r : regex) : list nat :=
  match r with
  | Char _ | Class _ => []
  | Seq r1 r2 => groupsOf r1 ++ groupsOf r2
  | Star r1 | Plus r1 | Opt r1 => groupsOf r1
  | Group i r1 => i :: groupsOf r1
  end.

Definition clearCaptures (gs : list nat) (cap : captures) : captures :=
  fold_left (fun c i => setCapture i None c) gs cap.

(** A continuation receives the rest of the input and the captures. *)
Definition cont := jsstring -> captures -> option captures.
Definition matcher := jsstring -> captures -> cont -> option captures.

(** The greedy loop of a quantifier with no lower bound left: one more
    iteration first, the continuation after. An iteration that consumes
    nothing is refused, so there are at most as many iterations as units
    left: [fuel] is that bound, and more of it changes nothing
    ([repeatMatcher_fuel] below). *)
Fixpoint repeatMatcher (m : matcher) (gs : list nat) (fuel : nat)
  (x : jsstring) (cap : captures) (k : cont) : option captures :=
  match fuel with
  | O => k x cap
  | S fuel' =>
      match m x (clearCaptures gs cap)
              (fun y cap' =>
                 if List.length y <? List.length x
                 then repeatMatcher m gs fuel' y cap' k else None) with
      | Some res => Some res
      | None => k x cap
      end
  end.

Fixpoint rmatch (r : regex) (x : jsstring) (cap : captures) (k : cont)
  {struct r} : option captures :=
  match r with
  | Char c =>
      match x with
      | c' :: x' => if N.eqb c' c then k x' cap else None
      | [] => None
      end
  | Class p =>
      match x with
      | c' :: x' => if p c' then k x' cap else None
      | [] => None
      end
  | Seq r1 r2 => rmatch r1 x cap (fun y cap' => rmatch r2 y cap' k)
  | Star r1 => repeatMatcher (rmatch r1) (groupsOf r1) (List.length x) x cap k
  | Plus r1 =>
      rmatch r1 x (clearCaptures (groupsOf r1) cap)
        (fun y cap' =>
           repeatMatcher (rmatch r1) (groupsOf r1) (List.length y) y cap' k)
  | Opt r1 => repeatMatcher (rmatch r1) (groupsOf r1) (Nat.min 1 (List.length x)) x cap k
  | Group i r1 =>
      rmatch r1 x cap
        (fun y cap' =>
           k y (setCapture i (Some (firstn (List.length x - List.length y) x)) cap'))
  end.

(** One attempt at the current position; [n] is the number of groups. *)
Definition matchHere (r : regex) (n : nat) (x : jsstring) : option captures :=
  rmatch r x (List.repeat None (S n))
    (fun y cap =>
       Some (setCapture 0 (Some (firstn (List.length x - List.length y) x)) cap)).

(** [RegExp.prototype.exec] without flags: the leftmost position where an
    attempt succeeds, the end of the string included. *)
Fixpoint exec (r : regex) (n : nat) (x : jsstring) : option captures :=
  match matchHere r n x with
  | Some res => Some res
  | None =>
      match x with
      | [] => None
      | _ :: x' => exec r n x'
      end
  end.

(** [m[i]] of a result array. *)
Definition group (i : nat) (m : captures) : option jsstring :=
  nth i m None.

End RegExp.
Import RegExp.

(** ** The two patterns of the source *)

(** The source's pattern for metres, written with blanks between its
    parts: [( \d+ [.,]? \d* ) \s* m] *)
Definition METRES_REGEX : regex :=
  Seq (Group 1 (Seq (Plus (Class isDigit))
                 (Seq (Opt (Class (fun c => N.eqb c (ch ".") || N.eqb c (ch ","))))
                      (Star (Class isDigit)))))
      (Seq (Star (Class isWhiteSpace)) (Char (ch "m"))).

(** The source's pattern for feet and inches:
    [( \d+ ) \s* ft \s* ( \d+ )? \s* in] *)
Definition FEET_REGEX : regex :=
  Seq (Group 1 (Plus (Class isDigit)))
      (Seq (Star (Class isWhiteSpace))
      (Seq (Char (ch "f"))
      (Seq (Char (ch "t"))
      (Seq (Star (Class isWhiteSpace))
      (Seq (Opt (Group 2 (Plus (Class isDigit))))
      (Seq (Star (Class isWhiteSpace))
      (Seq (Char (ch "i")) (Char (ch "n"))))))))).

(** [value.match(re)] for an expression without the global flag. *)
Definition str_match (value : jsstring) (re : regex) (ngroups : nat) : option captures :=
  exec re ngroups value.

(** ** Numbers: binary64 *)

Module Number.

Definition prec : Z := 53.
Definition emax : Z := 1024.

(** A Number is an IEEE 754 binary64 value. *)
Definition number := spec_float.

Definition mul : number -> number -> number := SFmul prec emax.
Definition add : number -> number -> number := SFadd prec emax.

Definition isNaN (x : number) : bool :=
  match x with
  | S754_nan => true
  | _ => false
  end.

(** The Number value of the decimal [m * 10^e], negated when [neg]: the
    binary64 value nearest to it, ties to even; an infinity past the range. *)
Definition ofDecimal (neg : bool) (m : N) (e : Z) : number :=
  match m with
  | N0 => S754_zero neg
  | Npos p =>
      match e with
      | Zneg k =>
          let '(q, e', l) :=
            SFdiv_core_binary prec emax (Zpos p) 0 (Z.pow_pos 10 k) 0 in
          binary_round_aux prec emax neg q e' l
      | _ =>
          match (Zpos p * 10 ^ e)%Z with
          | Zpos q => binary_round prec emax neg q 0
          | _ => S754_zero neg
          end
      end
  end.

(** The exact value of a finite Number, as a rational. *)
Definition toQ (x : number) : option Q :=
  match x with
  | S754_zero _ => Some 0%Q
  | S754_finite s m e =>
      let v := match e with
               | Zneg k => Qmake (Zpos m) (Pos.pow 2 k)
               | _ => inject_Z (Zpos m * 2 ^ e)
               end in
      Some (if s then Qopp v else v)
  | _ => None
  end.

Fixpoint takeWhile (p : codeunit -> bool) (s : jsstring) : jsstring :=
  match s with
  | c :: s' => if p c then c :: takeWhile p s' else []
  | [] => []
  end.

(** The mathematical value of a run of decimal digits. *)
Definition digitsValue (ds : jsstring) : N :=
  fold_left (fun acc c => (10 * acc + (c - ch "0"))%N) ds 0%N.

Definition isEmpty (s : jsstring) : bool :=
  match s with
  | [] => true
  | _ => false
  end.

(** The value of the longest ExponentPart at the head of [s], 0 without one. *)
Definition exponentPart (s : jsstring) : Z :=
  match s with
  | c :: s1 =>
      if N.eqb c (ch "e") || N.eqb c (ch "E") then
        let signed (neg : bool) (t : jsstring) : Z :=
          let v := Z.of_N (digitsValue (takeWhile isDigit t)) in
          if neg then Z.opp v else v in
        match s1 with
        | sg :: s2 =>
            if N.eqb sg (ch "+") then signed false s2
            else if N.eqb sg (ch "-") then signed true s2
            else signed false s1
        | [] => 0%Z
        end
      else 0%Z
  | [] => 0%Z
  end.

(** The longest prefix that is a StrUnsignedDecimalLiteral, and its value;
    NaN without one. *)
Definition parseUnsigned (neg : bool) (s : jsstring) : number :=
  if startsWith (lit "Infinity") s then S754_infinity neg
  else
    let ip := takeWhile isDigit s in
    let r1 := dropWhile isDigit s in
    let '(fp, r3) :=
      match r1 with
      | c :: r2 =>
          if N.eqb c (ch ".")
          then (takeWhile isDigit r2, dropWhile isDigit r2)
          else ([], r1)
      | [] => ([], r1)
      end in
    if isEmpty ip && isEmpty fp then S754_nan
    else ofDecimal neg (digitsValue (ip ++ fp))
           (exponentPart r3 - Z.of_nat (List.length fp)).

(** [parseFloat(s)]: leading white space skipped, an optional sign, the
    longest decimal literal, anything after it ignored. *)
Definition parseFloat (s : jsstring) : number :=
  match trimStart s with
  | c :: r =>
      if N.eqb c (ch "+") then parseUnsigned false r
      else if N.eqb c (ch "-") then parseUnsigned true r
      else parseUnsigned false (c :: r)
  | [] => S754_nan
  end.

(** The literals of the source. *)
Definition lit_0_3048 : number := ofDecimal false 3048 (-4).
Definition lit_0_0254 : number := ofDecimal false 254 (-4).
Definition lit_0 : number := S754_zero false.

End Number.
Import Number.

(** ** Exceptions *)

(** What a [throw] carries: an [Error] with its message, or some other
    value (for which [error instanceof Error] is false). *)
Inductive thrown : Type :=
| Error (message : jsstring)
| NotAnError.

Inductive result (A : Type) : Type :=
| Return (a : A)
| Throw (e : thrown).
Arguments Return {A} a.
Arguments Throw {A} e.

Definition bind {A B : Type} (r : result A) (f : A -> result B) : result B :=
  match r with
  | Return a => f a
  | Throw e => Throw e
  end.

Notation "x <- r ;; k" := (bind r (fun x => k))
  (at level 61, r at next level, right associativity).

(** [try { body } catch (error) { handler }] *)
Definition tryCatch {A : Type} (body : result A) (handler : thrown -> result A) : result A :=
  match body with
  | Return a => Return a
  | Throw e => handler e
  end.

(** [error instanceof Error ? error.message : "Something went wrong"] *)
Definition errorMsg (error : thrown) : jsstring :=
  match error with
  | Error message => message
  | NotAnError => lit "Something went wrong"
  end.

(** Reading [property] of [undefined]: a TypeError, with the message of
    the engine (V8). *)
Definition typeError (property : string) : thrown :=
  Error (lit "Cannot read properties of undefined (reading '"
           ++ lit property ++ lit "')").

(** ** The tables as the code reads them *)

(** A cell is read through [textContent] only, which is a string or null. *)
Record Cell : Type := { textContent : option jsstring }.

(** [row.querySelectorAll("td")]: the cells of a row, in document order. *)
Definition Row := list Cell.

(** [table.querySelectorAll("tr")]: the rows of a table, in document order. *)
Definition Table := list Row.

Record ColumnData : Type := { header : jsstring; values : list number }.

(** ** [extractColumnData] *)

(** [columns[0].values.push(v)] *)
Definition pushValue (columns : list ColumnData) (v : number) : result (list ColumnData) :=
  match columns with
  | c :: rest => Return ({| header := header c; values := values c ++ [v] |} :: rest)
  | [] => Throw (typeError "values")
  end.

(** [markCell.textContent?.trim() || ""] *)
Definition cellValue (markCell : Cell) : jsstring :=
  match textContent markCell with
  | Some t => if isEmpty (trim t) then lit "" else trim t
  | None => lit ""
  end.

(** A captured group used as a condition: [undefined] and the empty string
    are falsy. *)
Definition truthy (g : option jsstring) : bool :=
  match g with
  | Some s => negb (isEmpty s)
  | None => false
  end.

(** [parseFloat(g)] of an entry of a result array; [undefined] is converted
    to the string "undefined" first. *)
Definition parseFloatOf (g : option jsstring) : number :=
  match g with
  | Some s => parseFloat s
  | None => parseFloat (lit "undefined")
  end.

(** Lines 95-110, the branch on the text of the cell. *)
Definition handleValue (value : jsstring) (columns : list ColumnData)
  : result (list ColumnData) :=
  let meterValue := str_match value METRES_REGEX 1 in
  match meterValue with
  | Some meterValue =>
      match group 1 meterValue with
      | Some g =>
          let numValue := parseFloat (replace (lit ",") (lit ".") g) in
          if negb (isNaN numValue)
          then pushValue columns numValue
          else Return columns
      | None => Throw (typeError "replace")
      end
  | None =>
      let feetValue := str_match value FEET_REGEX 2 in
      match feetValue with
      | Some feetValue =>
          let feet := parseFloatOf (group 1 feetValue) in
          let inches :=
            if truthy (group 2 feetValue)
            then parseFloatOf (group 2 feetValue) else lit_0 in
          let meters := add (mul feet lit_0_3048) (mul inches lit_0_0254) in
          pushValue columns meters
      | None => Return columns
      end
  end.

(** Lines 89-111, the body of the loop for [rows[i]]. *)
Definition handleRow (rows : Table) (i : nat) (columns : list ColumnData)
  : result (list ColumnData) :=
  match nth_error rows i with
  | Some cells =>
      match cells with
      | markCell :: _ => handleValue (cellValue markCell) columns
      | [] => Return columns
      end
  | None => Throw (typeError "querySelectorAll")
  end.

(** [for (let i = 1; i < rows.length; i++)]: the indices the loop visits. *)
Definition loopIndices (rows : Table) : list nat :=
  seq 1 (List.length rows - 1).

Definition extractColumnData (table : Table) : result (list ColumnData) :=
  let columns := [ {| header := lit "Height"; values := [] |} ] in
  let rows := table in
  columns <- fold_left (fun st i => columns <- st ;; handleRow rows i columns)
               (loopIndices rows) (Return columns) ;;
  match columns with
  | c :: _ => Return (if 0 <? List.length (values c) then [c] else [])
  | [] => Throw (typeError "values")
  end.

(** ** [getTables], [getColumns], [generateChart] *)

(** What the request and the parsing of its answer come to: a failure of
    [fetch], [json] or the parser; an answer without [parse.text]; or a
    document, given by its [table.wikitable] elements. *)
Inductive fetched : Type :=
| Rejected (e : thrown)
| NoText
| Document (tables : list Table).

Definition getTables (page : fetched) : result (list Table) :=
  tryCatch
    (match page with
     | Rejected e => Throw e
     | NoText => Throw (Error (lit "Failed to fetch Wikipedia Content"))
     | Document tables =>
         if List.length tables =? 0
         then Throw (Error (lit "No table found"))
         else Return tables
     end)
    (fun error => Throw (Error (lit "Failed to get tables: " ++ errorMsg error))).

Definition getColumns (page : fetched) : result (list ColumnData) :=
  tables <- getTables page ;;
  fold_left (fun st table =>
               column <- st ;;
               columnDatas <- extractColumnData table ;;
               Return (column ++ columnDatas))
    tables (Return []).

Definition generateChart (page : fetched) : result unit :=
  tryCatch
    (columns <- getColumns page ;;
     if List.length columns =? 0
     then Throw (Error (lit "No numeric columns found in the tables"))
     else Return tt)
    (fun error => Throw (Error (lit "Failed to generate chart: " ++ errorMsg error))).

(** ** [getPageTitle] *)

Module Uri.

(** [s.split(sep)] for a string separator: the pieces between the
    occurrences of [sep], found from the left and not overlapping. [cur]
    is the piece being read, last unit first; [skip] counts the units of an
    occurrence still to pass. *)
Fixpoint splitFrom (sep s cur : jsstring) (skip : nat) : list jsstring :=
  match s with
  | [] => [rev cur]
  | c :: s' =>
      match skip with
      | S k => splitFrom sep s' cur k
      | O =>
          if startsWith sep s
          then rev cur :: splitFrom sep s' [] (List.length sep - 1)
          else splitFrom sep s' (c :: cur) 0
      end
  end.

Definition split (sep s : jsstring) : list jsstring :=
  match sep with
  | [] => List.map (fun c => [c]) s
  | _ :: _ => splitFrom sep s [] 0
  end.

(** The message of a URIError is the engine's. *)
Definition uriError : thrown := Error (lit "URI malformed").

Definition hexValue (c : codeunit) : option N :=
  if isDigit c then Some (c - ch "0")%N
  else if ((ch "A" <=? c) && (c <=? ch "F"))%N then Some (c - ch "A" + 10)%N
  else if ((ch "a" <=? c) && (c <=? ch "f"))%N then Some (c - ch "a" + 10)%N
  else None.

(** Where the decoder stands. Inside a sequence of several octets it keeps
    the number of octets still missing, the bits read so far and the
    smallest code point the sequence may encode. *)
Inductive decoding : Type :=
| Plain
| Escape (seq : option (nat * N * N)) (digit : option N)
| Await (missing : nat) (bits low : N).

(** UTF-16 of a code point. *)
Definition utf16 (cp : N) : jsstring :=
  if (cp <? 65536)%N then [cp]
  else [55296 + (cp - 65536) / 1024; 56320 + (cp - 65536) mod 1024]%N.

(** A code point a well-formed sequence may encode: not shorter than
    needed, no surrogate, in range. *)
Definition validCodePoint (cp low : N) : bool :=
  ((low <=? cp) && negb ((55296 <=? cp) && (cp <=? 57343)) && (cp <=? 1114111))%N.

Fixpoint decodeFrom (st : decoding) (s : jsstring) : result jsstring :=
  match s with
  | [] =>
      match st with
      | Plain => Return []
      | _ => Throw uriError
      end
  | c :: r =>
      match st with
      | Plain =>
          if N.eqb c (ch "%") then decodeFrom (Escape None None) r
          else rest <- decodeFrom Plain r ;; Return (c :: rest)
      | Escape seq None =>
          match hexValue c with
          | Some d => decodeFrom (Escape seq (Some d)) r
          | None => Throw uriError
          end
      | Escape seq (Some d1) =>
          match hexValue c with
          | None => Throw uriError
          | Some d2 =>
              let b := (16 * d1 + d2)%N in
              match seq with
              | None =>
                  if (b <? 128)%N then rest <- decodeFrom Plain r ;; Return (b :: rest)
                  else if (b <? 192)%N then Throw uriError
                  else if (b <? 224)%N then decodeFrom (Await 1 (b - 192) 128) r
                  else if (b <? 240)%N then decodeFrom (Await 2 (b - 224) 2048) r
                  else if (b <? 248)%N then decodeFrom (Await 3 (b - 240) 65536) r
                  else Throw uriError
              | Some (missing, bits, low) =>
                  if ((128 <=? b) && (b <? 192))%N then
                    let bits' := (64 * bits + (b - 128))%N in
                    match missing with
                    | S (S m) => decodeFrom (Await (S m) bits' low) r
                    | _ =>
                        if validCodePoint bits' low
                        then rest <- decodeFrom Plain r ;; Return (utf16 bits' ++ rest)
                        else Throw uriError
                    end
                  else Throw uriError
              end
          end
      | Await missing bits low =>
          if N.eqb c (ch "%") then decodeFrom (Escape (Some (missing, bits, low)) None) r
          else Throw uriError
      end
  end.

(** [decodeURIComponent(s)]: every escape is decoded, octets above 127 as
    UTF-8; a URIError when an escape is cut short or is not well-formed
    UTF-8. *)
Definition decodeURIComponent (s : jsstring) : result jsstring :=
  decodeFrom Plain s.

End Uri.
Import Uri.

(** Lines 28-31. [parts[parts.length - 1]] of an empty array would be
    [undefined], which converts to the string "undefined". *)
Definition getPageTitle (url : jsstring) : result jsstring :=
  let parts := split (lit "/wiki/") url in
  decodeURIComponent (last parts (lit "undefined")).

(** What [getTables(url)] works on. The title is all of the url that goes
    into the request, so the answer is a function [fetchPage] of the
    title; [getPageTitle] is called inside the [try], so what it throws is
    caught like a failed request. *)
Definition pageOf (fetchPage : jsstring -> fetched) (url : jsstring) : fetched :=
  match getPageTitle url with
  | Return title => fetchPage title
  | Throw e => Rejected e
  end.

(** ** The last draft of the file: [saveChart] and [generateChart] *)

Module Final.

(** What [new Chart] is given, as far as the code decides it. *)
Record ChartData : Type := {
  labels : list jsstring;
  data : list number;
  title : jsstring
}.

(** The download the link triggers. *)
Record Download : Type := { download : jsstring; chart : ChartData }.

(** The decimal digits of an index, as a template literal writes it. *)
Definition decimal (n : nat) : jsstring :=
  lit (NilEmpty.string_of_uint (Nat.to_uint n)).

(** [Array.from({ length: n }, (_, i) => `Record ${i + 1}`)] *)
Definition recordLabels (n : nat) : list jsstring :=
  List.map (fun i => lit "Record " ++ decimal (i + 1)) (seq 0 n).

(** Lines 376-462. [context] tells whether [canvas.getContext("2d")]
    gave a context. *)
Definition saveChart (context : bool) (url : jsstring)
  (columnData : list ColumnData) (fileName : jsstring) : result Download :=
  if negb context then Throw (Error (lit "Could not get canvas context"))
  else
    match columnData with
    | c0 :: _ =>
        text <- getPageTitle url ;;
        Return {| download := fileName;
                  chart := {| labels := recordLabels (List.length (values c0));
                              data := values c0;
                              title := text |} |}
    | [] => Throw (typeError "values")
    end.

(** Lines 471-486. *)
Definition generateChart (fetchPage : jsstring -> fetched) (context : bool)
  (url fileName : jsstring) : result Download :=
  tryCatch
    (columns <- getColumns (pageOf fetchPage url) ;;
     if List.length columns =? 0
     then Throw (Error (lit "No numeric columns found in the tables"))
     else saveChart context url columns fileName)
    (fun error => Throw (Error (lit "Failed to generate chart: " ++ errorMsg error))).

End Final.

(** ** The form: [DetectorInspector.tsx] *)

Module DetectorInspector.

(** The three pieces of state of the component. *)
Record State : Type := { url : jsstring; error : jsstring; loading : bool }.

Definition setUrl (v : jsstring) (st : State) : State :=
  {| url := v; error := error st; loading := loading st |}.
Definition setError (v : jsstring) (st : State) : State :=
  {| url := url st; error := v; loading := loading st |}.
Definition setLoading (v : bool) (st : State) : State :=
  {| url := url st; error := error st; loading := v |}.

(** [s.endsWith(suffix)] *)
Definition endsWith (s suffix : jsstring) : bool :=
  startsWith (rev suffix) (rev s).

(** Lines 14-30. [hostnameOf] is [new URL(url).hostname], [None] when the
    constructor throws. *)
Definition validateUrl (hostnameOf : jsstring -> option jsstring)
  (input : jsstring) (st : State) : bool * State :=
  match hostnameOf input with
  | Some hostname =>
      if endsWith hostname (lit "wikipedia.org")
      then (true, setError (lit "") st)
      else (false, setError (lit "Please enter a valid Wikipedia URL") st)
  | None => (false, setError (lit "Please enter a valid URL") st)
  end.

(** Lines 36-43. *)
Definition onChangeURL (hostnameOf : jsstring -> option jsstring)
  (value : jsstring) (st : State) : State :=
  let st := setUrl value st in
  let st := setError (lit "") st in
  if negb (isEmpty value) then snd (validateUrl hostnameOf value st) else st.

(** [disabled={!!error || !url}] *)
Definition scanDisabled (st : State) : bool :=
  negb (isEmpty (error st)) || isEmpty (url st).

(** Lines 45-58, once the promise of [generateChart] has settled with
    [outcome]. *)
Definition onScan {A : Type} (generate : jsstring -> result A) (st : State) : State :=
  let st1 := setError (lit "") (setLoading true st) in
  let st2 :=
    match generate (url st) with
    | Return _ => st1
    | Throw err =>
        setError (match err with
                  | Error message => message
                  | NotAnError => lit "An error occurred"
                  end) st1
    end in
  setLoading false st2.

End DetectorInspector.

(** * Vocabulary of the properties *)

Definition digits (s : jsstring) : Prop := Forall (fun c => isDigit c = true) s.
Definition spaces (s : jsstring) : Prop := Forall (fun c => isWhiteSpace c = true) s.

(** The first unit of [s], if there is one, is outside the class [p]. *)
Definition headNot (p : codeunit -> bool) (s : jsstring) : Prop :=
  match s with
  | c :: _ => p c = false
  | [] => True
  end.

(** [matches r w cap cap']: the expression [r] accepts the word [w] and
    turns the captures [cap] into [cap']. *)
Inductive matches : regex -> jsstring -> captures -> captures -> Prop :=
| M_Char c cap : matches (Char c) [c] cap cap
| M_Class (p : codeunit -> bool) c cap : p c = true -> matches (Class p) [c] cap cap
| M_Seq r1 r2 w1 w2 cap cap1 cap2 :
    matches r1 w1 cap cap1 -> matches r2 w2 cap1 cap2 ->
    matches (Seq r1 r2) (w1 ++ w2) cap cap2
| M_Star_stop r cap : matches (Star r) [] cap cap
| M_Star_step r w1 w2 cap cap1 cap2 :
    w1 <> [] ->
    matches r w1 (clearCaptures (groupsOf r) cap) cap1 ->
    matches (Star r) w2 cap1 cap2 ->
    matches (Star r) (w1 ++ w2) cap cap2
| M_Plus r w1 w2 cap cap1 cap2 :
    matches r w1 (clearCaptures (groupsOf r) cap) cap1 ->
    matches (Star r) w2 cap1 cap2 ->
    matches (Plus r) (w1 ++ w2) cap cap2
| M_Opt_skip r cap : matches (Opt r) [] cap cap
| M_Opt_take r w cap cap' :
    w <> [] ->
    matches r w (clearCaptures (groupsOf r) cap) cap' ->
    matches (Opt r) w cap cap'
| M_Group i r w cap cap' :
    matches r w cap cap' ->
    matches (Group i r) w cap (setCapture i (Some w) cap').

(** What a matcher owes its caller when it succeeds. *)
Definition sound (m : matcher) (P : jsstring -> captures -> captures -> Prop) : Prop :=
  forall x cap k res,
    m x cap k = Some res ->
    exists w y cap', x = w ++ y /\ P w cap cap' /\ k y cap' = Some res.

(** Two continuations that agree on every input of length at most [n]. *)
Definition agree (n : nat) (k1 k2 : cont) : Prop :=
  forall y cap, List.length y <= n -> k1 y cap = k2 y cap.

(** A matcher that calls its continuation on what is left of its input
    only. *)
Definition local (m : matcher) : Prop :=
  forall x cap k1 k2,
    agree (List.length x) k1 k2 -> m x cap k1 = m x cap k2.

(** The captured text of the metres pattern: digits, at most one separator,
    digits. *)
Definition separator (s : jsstring) : Prop :=
  s = [] \/ s = [ch "."] \/ s = [ch ","].

Inductive metresShape : jsstring -> captures -> Prop :=
| MetresShape pre int sep frac ws post :
    int <> [] -> digits int -> separator sep -> digits frac -> spaces ws ->
    metresShape
      (pre ++ ((int ++ sep ++ frac) ++ (ws ++ [ch "m"])) ++ post)
      [Some ((int ++ sep ++ frac) ++ (ws ++ [ch "m"])); Some (int ++ sep ++ frac)].

(** The feet pattern: digits, [ft], optional digits, [in], white space in
    between. *)
Inductive feetShape : jsstring -> captures -> Prop :=
| FeetShape pre feet ws1 ws2 inches ws3 post :
    feet <> [] -> digits feet -> spaces ws1 -> spaces ws2 ->
    digits inches -> spaces ws3 ->
    feetShape
      (pre ++ (feet ++ ws1 ++ [ch "f"] ++ [ch "t"] ++ ws2
                 ++ inches ++ ws3 ++ [ch "i"] ++ [ch "n"]) ++ post)
      [Some (feet ++ ws1 ++ [ch "f"] ++ [ch "t"] ++ ws2
               ++ inches ++ ws3 ++ [ch "i"] ++ [ch "n"]);
       Some feet;
       if isEmpty inches then None else Some inches].

(** Zero, a positive finite value or plus infinity: not NaN, and no sign. *)
Definition nonNegative (x : number) : Prop :=
  match x with
  | S754_zero false | S754_infinity false | S754_finite false _ _ => True
  | _ => False
  end.

Definition finite (x : number) : Prop :=
  match x with
  | S754_zero _ | S754_finite _ _ _ => True
  | _ => False
  end.

(** [handleValue] pushes [v] for this text, whatever the columns. *)
Definition pushes (value : jsstring) (v : number) : Prop :=
  forall columns, handleValue value columns = pushValue columns v.

(** [handleValue] leaves the columns as they are: no match. *)
Definition skips (value : jsstring) : Prop :=
  forall columns, handleValue value columns = Return columns.

(** The feet branch. *)
Definition feetToMetres (feetValue : captures) : number :=
  add (mul (parseFloatOf (group 1 feetValue)) lit_0_3048)
      (mul (if truthy (group 2 feetValue)
            then parseFloatOf (group 2 feetValue) else lit_0) lit_0_0254).

(** What [handleValue] pushes on a column without values, if anything. *)
Definition emitted (value : jsstring) : option number :=
  match handleValue value [ {| header := []; values := [] |} ] with
  | Return (c :: _) => head (values c)
  | _ => None
  end.

(** The value row [i] contributes, if any. *)
Definition rowEmitted (rows : Table) (i : nat) : option number :=
  match nth_error rows i with
  | Some (markCell :: _) => emitted (cellValue markCell)
  | _ => None
  end.

Definition optionList {A : Type} (o : option A) : list A :=
  match o with
  | Some a => [a]
  | None => []
  end.

(** The values of the rows the loop visits, in that order. *)
Definition scanned (rows : Table) : list number :=
  flat_map (fun i => optionList (rowEmitted rows i)) (loopIndices rows).

Definition columnsOf (table : Table) : list ColumnData :=
  if 0 <? List.length (scanned table)
  then [ {| header := lit "Height"; values := scanned table |} ]
  else [].

Definition cell (s : string) : Cell := {| textContent := Some (lit s) |}.

(** [x] is finite and within [tol] of the rational [q]. *)
Definition within (x : number) (q tol : Q) : Prop :=
  match toQ x with
  | Some v => (Qabs (v - q) <= tol)%Q
  | None => False
  end.

Definition example1 : Table :=
  [[cell "Header"]; [cell "1.85 m"]; [cell "n/a"]; [cell "6 ft 1 in"]].

Definition example3 : list Table :=
  [ [[cell "Header"]; [cell "n/a"]]; [[cell "Header"]; [cell "5 ft"]] ].

Definition noColumnsMessage : jsstring :=
  lit "Failed to generate chart: No numeric columns found in the tables".

Definition contains (sub s : jsstring) : Prop :=
  exists pre post, s = pre ++ sub ++ post.

Definition dashCell : Cell := {| textContent := Some [8212%N] |}.

(** Zero, or a finite Number of magnitude at most [C * 2^971]. The largest
    finite Number is [(2^53 - 1) * 2^971]. *)
Definition atMost (C : Z) (x : number) : Prop :=
  match x with
  | S754_zero _ => True
  | S754_finite _ m e => (Z.pos m <= C * 2 ^ (971 - e))%Z /\ (e <= 971)%Z
  | _ => False
  end.

(** How many of the code units of a text are decimal digits. *)
Definition digitCount (s : jsstring) : nat := List.length (filter isDigit s).

(** A one followed by 309 zeros, then the unit, then a height in feet. *)
Definition hugeMetres : jsstring :=
  lit "1" ++ List.repeat (ch "0") 309 ++ lit " m (5 ft 3 in)".

(** A row whose first cell holds at most 308 digits. *)
Definition fewDigits (cells : Row) : Prop :=
  match cells with
  | markCell :: _ => digitCount (cellValue markCell) <= 308
  | [] => True
  end.

(** A two followed by 308 zeros, then the unit: 309 digits. *)
Definition justPastRange : jsstring :=
  lit "2" ++ List.repeat (ch "0") 308 ++ lit " m".

(** The value of one row, from its first cell. *)
Definition rowValue (cells : Row) : option number :=
  match cells with
  | markCell :: _ => emitted (cellValue markCell)
  | [] => None
  end.

(** A row without cells, or whose first cell is skipped. *)
Definition silent (cells : Row) : Prop :=
  cells = [] \/
  exists markCell others,
    cells = markCell :: others /\ skips (cellValue markCell).

(** Row [i] of the table has a first cell, and its text pushes [v]. *)
Definition pushesAt (table : Table) (i : nat) (v : number) : Prop :=
  exists markCell others,
    nth_error table i = Some (markCell :: others) /\
    pushes (cellValue markCell) v.

(** [vs] are the values of the rows after row 0 that push one, each row
    once, in the order of the rows. *)
Definition inRowOrder (table : Table) (vs : list number) : Prop :=
  exists idxs,
    StronglySorted lt idxs /\
    Forall (fun i => 1 <= i) idxs /\
    Forall2 (pushesAt table) idxs vs /\
    forall i v, 1 <= i -> pushesAt table i v -> In i idxs.

(** The columns of a sequence of tables: a table gives one column, which is
    not empty, or none. *)
Inductive collects : list Table -> list ColumnData -> Prop :=
| collects_nil : collects [] []
| collects_none t ts cs :
    extractColumnData t = Return [] ->
    collects ts cs -> collects (t :: ts) cs
| collects_one t ts c cs :
    extractColumnData t = Return [c] ->
    values c <> [] -> inRowOrder t (values c) ->
    collects ts cs -> collects (t :: ts) (c :: cs).

Definition milesCell : Cell :=
  {| textContent := Some (lit "  about 100 miles ") |}.

Definition example3_marker : list Table :=
  [ [[cell "Header"]; [cell "n/a"]]; [[cell "Header"]; [cell "5 ft in"]] ].

(** The values of the Height column of a table, none when
    [extractColumnData] returns no column. *)
Definition heights (table : Table) : list number :=
  match extractColumnData table with
  | Return (c :: _) => values c
  | _ => []
  end.

(** What caused a failure of [getTables], as a message. *)
Definition causeOf (page : fetched) : jsstring :=
  match page with
  | Rejected e => errorMsg e
  | NoText => lit "Failed to fetch Wikipedia Content"
  | Document _ => lit "No table found"
  end.

(** [s.indexOf(sep)]: where [sep] first occurs in [s]. *)
Fixpoint indexOf (sep s : jsstring) : option nat :=
  if startsWith sep s then Some 0
  else match s with
       | [] => None
       | _ :: s' => option_map S (indexOf sep s')
       end.

(** ** Characters and strings *)

Lemma isDigit_range c : isDigit c = true <-> (48 <= c <= 57)%N.
Proof.
  unfold isDigit. rewrite andb_true_iff, !N.leb_le. tauto.
Qed.

Lemma digit_not_space c : isDigit c = true -> isWhiteSpace c = false.
Proof.
  intros H. apply isDigit_range in H. unfold isWhiteSpace.
  apply orb_false_iff. split.
  - cbn [existsb]. repeat (apply orb_false_iff; split); try reflexivity;
      apply N.eqb_neq; lia.
  - apply andb_false_iff. left. apply N.leb_gt. lia.
Qed.

Lemma digit_neq c (a : ascii) :
  isDigit c = true -> isDigit (ch a) = false -> N.eqb c (ch a) = false.
Proof.
  intros H Ha. apply N.eqb_neq. intros ->. congruence.
Qed.

Lemma firstn_app_length (w y : jsstring) :
  firstn (List.length (w ++ y) - List.length y) (w ++ y) = w.
Proof.
  rewrite length_app, Nat.add_sub.
  rewrite firstn_app, Nat.sub_diag, firstn_all. cbn. apply app_nil_r.
Qed.

Lemma takeWhile_app p (ds rest : jsstring) :
  Forall (fun c => p c = true) ds -> headNot p rest ->
  takeWhile p (ds ++ rest) = ds.
Proof.
  induction 1 as [|c ds Hc _ IH]; intros Hr; cbn.
  - destruct rest as [|c r]; cbn in *; [reflexivity | now rewrite Hr].
  - rewrite Hc. f_equal. auto.
Qed.

Lemma dropWhile_app p (ds rest : jsstring) :
  Forall (fun c => p c = true) ds -> headNot p rest ->
  dropWhile p (ds ++ rest) = rest.
Proof.
  induction 1 as [|c ds Hc _ IH]; intros Hr; cbn.
  - destruct rest as [|c r]; cbn in *; [reflexivity | now rewrite Hr].
  - rewrite Hc. auto.
Qed.

(** ** What a successful match says: a declarative reading of the matcher *)

Lemma shorter_nonempty (w y : jsstring) :
  (List.length y <? List.length (w ++ y)) = true -> w <> [].
Proof.
  intros H ->. cbn in H. apply Nat.ltb_lt in H. lia.
Qed.

Lemma repeatMatcher_sound r :
  sound (rmatch r) (matches r) ->
  forall fuel, sound (repeatMatcher (rmatch r) (groupsOf r) fuel) (matches (Star r)).
Proof.
  intros Hr fuel. induction fuel as [|fuel IH]; intros x cap k res H; cbn [repeatMatcher] in H.
  - exists [], x, cap. repeat split; auto. constructor.
  - destruct (rmatch r x (clearCaptures (groupsOf r) cap) _) as [res'|] eqn:E.
    + injection H as ->.
      apply Hr in E. destruct E as (w1 & y1 & cap1 & -> & Hw1 & Hk).
      cbv beta in Hk.
      destruct (List.length y1 <? List.length (w1 ++ y1)) eqn:L; [|discriminate].
      apply IH in Hk. destruct Hk as (w2 & y & cap2 & -> & Hw2 & Hk).
      exists (w1 ++ w2), y, cap2. rewrite app_assoc. repeat split; auto.
      eapply M_Star_step; eauto. eapply shorter_nonempty; eauto.
    + exists [], x, cap. repeat split; auto. constructor.
Qed.

Theorem rmatch_sound r : sound (rmatch r) (matches r).
Proof.
  induction r as [c|p|r1 IH1 r2 IH2|r IH|r IH|r IH|i r IH];
    intros x cap k res H; cbn [rmatch] in H.
  - destruct x as [|c' x]; [discriminate|].
    destruct (N.eqb c' c) eqn:E; [|discriminate].
    apply N.eqb_eq in E. subst c'.
    exists [c], x, cap. repeat split; auto. constructor.
  - destruct x as [|c' x]; [discriminate|].
    destruct (p c') eqn:E; [|discriminate].
    exists [c'], x, cap. repeat split; auto. now constructor.
  - apply IH1 in H. destruct H as (w1 & y1 & cap1 & -> & Hw1 & H).
    cbv beta in H.
    apply IH2 in H. destruct H as (w2 & y & cap2 & -> & Hw2 & H).
    exists (w1 ++ w2), y, cap2. rewrite app_assoc. repeat split; auto.
    econstructor; eauto.
  - eapply repeatMatcher_sound; eauto.
  - apply IH in H. destruct H as (w1 & y1 & cap1 & -> & Hw1 & H).
    cbv beta in H.
    apply (repeatMatcher_sound IH) in H.
    destruct H as (w2 & y & cap2 & -> & Hw2 & H).
    exists (w1 ++ w2), y, cap2. rewrite app_assoc. repeat split; auto.
    econstructor; eauto.
  - destruct (Nat.min 1 (List.length x)) as [|[|n]] eqn:En; cbn [repeatMatcher] in H.
    + exists [], x, cap. repeat split; auto. constructor.
    + destruct (rmatch r x (clearCaptures (groupsOf r) cap) _) as [res'|] eqn:E.
      * injection H as ->.
        apply IH in E. destruct E as (w & y & cap' & -> & Hw & Hk).
        cbv beta in Hk.
        destruct (List.length y <? List.length (w ++ y)) eqn:L; [|discriminate].
        exists w, y, cap'. repeat split; auto.
        apply M_Opt_take; auto. eapply shorter_nonempty; eauto.
      * exists [], x, cap. repeat split; auto. constructor.
    + lia.
  - apply IH in H. destruct H as (w & y & cap' & -> & Hw & H).
    cbv beta in H.
    rewrite firstn_app_length in H.
    exists w, y, (setCapture i (Some w) cap'). repeat split; auto.
    now constructor.
Qed.

Lemma matchHere_sound r n x res :
  matchHere r n x = Some res ->
  exists w y cap',
    x = w ++ y /\
    matches r w (List.repeat None (S n)) cap' /\
    res = setCapture 0 (Some w) cap'.
Proof.
  unfold matchHere. intros H.
  apply rmatch_sound in H. destruct H as (w & y & cap' & -> & Hw & Hk).
  cbv beta in Hk. rewrite firstn_app_length in Hk. injection Hk as <-.
  exists w, y, cap'. auto.
Qed.

(** A result of [exec]: the text splits around an accepted word, entry 0
    of the array is that word, the groups are what the word set. *)
Theorem exec_sound r n x res :
  exec r n x = Some res ->
  exists pre w post cap',
    x = pre ++ w ++ post /\
    matches r w (List.repeat None (S n)) cap' /\
    res = setCapture 0 (Some w) cap'.
Proof.
  induction x as [|c x IH]; cbn [exec]; intros H.
  - destruct (matchHere r n []) as [res'|] eqn:E; [|discriminate].
    injection H as ->.
    apply matchHere_sound in E. destruct E as (w & y & cap' & Hx & Hw & ->).
    exists [], w, y, cap'. auto.
  - destruct (matchHere r n (c :: x)) as [res'|] eqn:E.
    + injection H as ->.
      apply matchHere_sound in E. destruct E as (w & y & cap' & Hx & Hw & ->).
      exists [], w, y, cap'. auto.
    + apply IH in H. destruct H as (pre & w & post & cap' & -> & Hw & ->).
      exists (c :: pre), w, post, cap'. auto.
Qed.

(** [exec] returns the first attempt that succeeds. *)
Lemma exec_here r n x res : matchHere r n x = Some res -> exec r n x = Some res.
Proof.
  intros H. destruct x; cbn [exec]; now rewrite H.
Qed.

Lemma exec_skip r n c x : matchHere r n (c :: x) = None -> exec r n (c :: x) = exec r n x.
Proof.
  intros H. cbn [exec]. now rewrite H.
Qed.

Lemma exec_app_some r n pre x :
  exec r n x <> None -> exec r n (pre ++ x) <> None.
Proof.
  intros H. induction pre as [|c pre IH]; [exact H|].
  cbn [app exec]. destruct (matchHere r n (c :: pre ++ x)); [discriminate | exact IH].
Qed.

(** *** The greedy path of a quantified class *)

Lemma rmatch_class (p : codeunit -> bool) c x cap k :
  rmatch (Class p) (c :: x) cap k = if p c then k x cap else None.
Proof. reflexivity. Qed.

Lemma repeat_class_cons (p : codeunit -> bool) fuel c x cap k :
  repeatMatcher (rmatch (Class p)) [] (S fuel) (c :: x) cap k =
  if p c
  then match repeatMatcher (rmatch (Class p)) [] fuel x cap k with
       | Some res => Some res
       | None => k (c :: x) cap
       end
  else k (c :: x) cap.
Proof.
  cbn [repeatMatcher clearCaptures fold_left]. rewrite rmatch_class.
  destruct (p c); [|reflexivity].
  replace (List.length x <? List.length (c :: x)) with true
    by (symmetry; apply Nat.ltb_lt; cbn; lia).
  reflexivity.
Qed.

Lemma repeat_class_nil (p : codeunit -> bool) fuel cap k :
  repeatMatcher (rmatch (Class p)) [] fuel [] cap k = k [] cap.
Proof. destruct fuel; reflexivity. Qed.

Lemma repeat_class_greedy (p : codeunit -> bool) ds :
  Forall (fun c => p c = true) ds ->
  forall fuel rest cap k res,
    List.length ds <= fuel -> headNot p rest ->
    k rest cap = Some res ->
    repeatMatcher (rmatch (Class p)) [] fuel (ds ++ rest) cap k = Some res.
Proof.
  induction 1 as [|c ds Hc _ IH]; intros fuel rest cap k res Hf Hr Hk.
  - cbn [app]. destruct rest as [|c r]; [now rewrite repeat_class_nil|].
    destruct fuel as [|fuel]; [exact Hk|].
    rewrite repeat_class_cons. cbn in Hr. now rewrite Hr.
  - destruct fuel as [|fuel]; [cbn in Hf; lia|].
    cbn [app]. rewrite repeat_class_cons, Hc.
    rewrite (IH fuel rest cap k res); auto. cbn in Hf. lia.
Qed.

Lemma star_class_greedy (p : codeunit -> bool) ds rest cap k res :
  Forall (fun c => p c = true) ds -> headNot p rest ->
  k rest cap = Some res ->
  rmatch (Star (Class p)) (ds ++ rest) cap k = Some res.
Proof.
  intros Hd Hr Hk. change (rmatch (Star (Class p)) (ds ++ rest) cap k)
    with (repeatMatcher (rmatch (Class p)) [] (List.length (ds ++ rest)) (ds ++ rest) cap k).
  apply repeat_class_greedy; auto. rewrite length_app. lia.
Qed.

Lemma plus_class_greedy (p : codeunit -> bool) ds rest cap k res :
  ds <> [] -> Forall (fun c => p c = true) ds -> headNot p rest ->
  k rest cap = Some res ->
  rmatch (Plus (Class p)) (ds ++ rest) cap k = Some res.
Proof.
  intros Hne Hd Hr Hk. destruct ds as [|c ds]; [congruence|].
  inversion Hd as [|? ? Hc Hd']; subst.
  change (rmatch (Plus (Class p)) ((c :: ds) ++ rest) cap k)
    with (if p c
          then repeatMatcher (rmatch (Class p)) [] (List.length (ds ++ rest))
                 (ds ++ rest) cap k
          else None).
  rewrite Hc. apply repeat_class_greedy; auto. rewrite length_app. lia.
Qed.

(** With nothing to take, a quantified class hands over at once. *)
Lemma star_class_skip (p : codeunit -> bool) rest cap k :
  headNot p rest -> rmatch (Star (Class p)) rest cap k = k rest cap.
Proof.
  intros Hr. change (rmatch (Star (Class p)) rest cap k)
    with (repeatMatcher (rmatch (Class p)) [] (List.length rest) rest cap k).
  destruct rest as [|c r]; [reflexivity|].
  cbn [List.length]. rewrite repeat_class_cons. cbn in Hr. now rewrite Hr.
Qed.

Lemma opt_class_skip (p : codeunit -> bool) rest cap k :
  headNot p rest -> rmatch (Opt (Class p)) rest cap k = k rest cap.
Proof.
  intros Hr. change (rmatch (Opt (Class p)) rest cap k)
    with (repeatMatcher (rmatch (Class p)) [] (Nat.min 1 (List.length rest)) rest cap k).
  destruct rest as [|c r]; [reflexivity|].
  cbn [List.length Nat.min]. rewrite repeat_class_cons. cbn in Hr. now rewrite Hr.
Qed.

Lemma opt_class_take (p : codeunit -> bool) c rest cap k res :
  p c = true -> k rest cap = Some res ->
  rmatch (Opt (Class p)) (c :: rest) cap k = Some res.
Proof.
  intros Hc Hk. change (rmatch (Opt (Class p)) (c :: rest) cap k)
    with (repeatMatcher (rmatch (Class p)) [] (Nat.min 1 (List.length (c :: rest)))
            (c :: rest) cap k).
  cbn [List.length Nat.min]. rewrite repeat_class_cons, Hc.
  cbn [repeatMatcher]. now rewrite Hk.
Qed.

Lemma plus_class_fail (p : codeunit -> bool) rest cap k :
  headNot p rest -> rmatch (Plus (Class p)) rest cap k = None.
Proof.
  intros Hr. cbn [rmatch groupsOf clearCaptures fold_left].
  destruct rest as [|c r]; [reflexivity|]. cbn in Hr. now rewrite Hr.
Qed.

(** *** The bound on the iterations loses nothing *)

Lemma agree_le n n' k1 k2 : n' <= n -> agree n k1 k2 -> agree n' k1 k2.
Proof. intros Hn H y cap Hy. apply H. lia. Qed.

Lemma repeatMatcher_local m gs :
  local m -> forall fuel, local (repeatMatcher m gs fuel).
Proof.
  intros Hm fuel. induction fuel as [|fuel IH]; intros x cap k1 k2 Hk;
    cbn [repeatMatcher].
  - apply Hk. lia.
  - rewrite (Hk x cap) by lia.
    erewrite Hm; [reflexivity|].
    intros y cap' Hy.
    destruct (List.length y <? List.length x); [|reflexivity].
    apply IH. eapply agree_le; eauto.
Qed.

Lemma rmatch_local r : local (rmatch r).
Proof.
  induction r as [c|p|r1 IH1 r2 IH2|r IH|r IH|r IH|i r IH];
    intros x cap k1 k2 Hk; cbn [rmatch].
  - destruct x as [|c' x]; [reflexivity|].
    destruct (N.eqb c' c); [|reflexivity]. apply Hk. cbn. lia.
  - destruct x as [|c' x]; [reflexivity|].
    destruct (p c'); [|reflexivity]. apply Hk. cbn. lia.
  - apply IH1. intros y cap' Hy. apply IH2. eapply agree_le; eauto.
  - now apply repeatMatcher_local.
  - apply IH. intros y cap' Hy.
    apply repeatMatcher_local; [exact IH|]. eapply agree_le; eauto.
  - now apply repeatMatcher_local.
  - apply IH. intros y cap' Hy. now apply Hk.
Qed.

(** An iteration on an empty input cannot consume anything. *)
Lemma rmatch_empty_input r cap (k : cont) :
  rmatch r [] cap
    (fun y cap' => if List.length y <? 0 then k y cap' else None)
  = None.
Proof.
  destruct (rmatch r [] cap _) as [res|] eqn:E; [|reflexivity].
  apply rmatch_sound in E. destruct E as (w & y & cap' & _ & _ & H).
  cbv beta in H.
  destruct (List.length y <? 0) eqn:L; [|discriminate].
  apply Nat.ltb_lt in L. lia.
Qed.

Lemma repeatMatcher_step m gs fuel x cap k :
  repeatMatcher m gs (S fuel) x cap k =
  match m x (clearCaptures gs cap)
          (fun y cap' =>
             if List.length y <? List.length x
             then repeatMatcher m gs fuel y cap' k else None) with
  | Some res => Some res
  | None => k x cap
  end.
Proof. reflexivity. Qed.

(** Once the fuel covers the length of the input, more fuel changes
    nothing: the loop of a quantifier is never cut short. *)
Theorem repeatMatcher_fuel r fuel : forall x cap k,
  List.length x <= fuel ->
  repeatMatcher (rmatch r) (groupsOf r) (S fuel) x cap k
  = repeatMatcher (rmatch r) (groupsOf r) fuel x cap k.
Proof.
  induction fuel as [|fuel IH]; intros x cap k Hx.
  - destruct x as [|c x]; [|cbn in Hx; lia].
    rewrite repeatMatcher_step. cbn [repeatMatcher List.length].
    now rewrite rmatch_empty_input.
  - rewrite (repeatMatcher_step _ _ (S fuel)), (repeatMatcher_step _ _ fuel).
    assert (E : rmatch r x (clearCaptures (groupsOf r) cap)
                  (fun y cap' =>
                     if List.length y <? List.length x
                     then repeatMatcher (rmatch r) (groupsOf r) (S fuel) y cap' k
                     else None)
                = rmatch r x (clearCaptures (groupsOf r) cap)
                    (fun y cap' =>
                       if List.length y <? List.length x
                       then repeatMatcher (rmatch r) (groupsOf r) fuel y cap' k
                       else None)).
    { apply rmatch_local. intros y cap' Hy.
      destruct (List.length y <? List.length x) eqn:L; [|reflexivity].
      apply Nat.ltb_lt in L. apply IH. lia. }
    now rewrite E.
Qed.

Corollary star_any_fuel r x cap k n :
  repeatMatcher (rmatch r) (groupsOf r) (List.length x + n) x cap k
  = rmatch (Star r) x cap k.
Proof.
  induction n as [|n IH].
  - now rewrite Nat.add_0_r.
  - rewrite Nat.add_succ_r, repeatMatcher_fuel by lia. exact IH.
Qed.

(** ** What the two patterns accept *)

Ltac inv H := inversion H; subst; clear H.

Lemma matches_star_class (p : codeunit -> bool) w cap cap' :
  matches (Star (Class p)) w cap cap' ->
  Forall (fun c => p c = true) w /\ cap' = cap.
Proof.
  intros H. remember (Star (Class p)) as r eqn:Er.
  induction H as [ | | | | r0 w1 w2 cap cap1 cap2 Hne H1 _ H2 IH2 | | | | ];
    try discriminate; injection Er as ->.
  - split; [constructor | reflexivity].
  - inv H1. destruct IH2 as [Hw ->]; [reflexivity|].
    split; [constructor; assumption | reflexivity].
Qed.

Lemma matches_plus_class (p : codeunit -> bool) w cap cap' :
  matches (Plus (Class p)) w cap cap' ->
  w <> [] /\ Forall (fun c => p c = true) w /\ cap' = cap.
Proof.
  intros H. inv H.
  match goal with H : matches (Class _) _ _ _ |- _ => inv H end.
  match goal with H : matches (Star _) _ _ _ |- _ =>
    apply matches_star_class in H; destruct H as [Hw ->] end.
  repeat split; [discriminate | constructor; assumption].
Qed.

Lemma matches_opt_class (p : codeunit -> bool) w cap cap' :
  matches (Opt (Class p)) w cap cap' ->
  (w = [] \/ exists c, w = [c] /\ p c = true) /\ cap' = cap.
Proof.
  intros H. inv H.
  - auto.
  - match goal with H : matches (Class _) _ _ _ |- _ => inv H end.
    split; [right; eauto | reflexivity].
Qed.

(** One step of taking an accepted word apart. *)
Ltac unfold_match :=
  match goal with
  | H : matches (Seq _ _) _ _ _ |- _ => inv H
  | H : matches (Group _ _) _ _ _ |- _ => inv H
  | H : matches (Char _) _ _ _ |- _ => inv H
  | H : matches (Plus (Class _)) _ _ _ |- _ =>
      apply matches_plus_class in H; destruct H as (? & ? & ?); subst
  | H : matches (Star (Class _)) _ _ _ |- _ =>
      apply matches_star_class in H; destruct H as (? & ?); subst
  | H : matches (Opt (Class _)) _ _ _ |- _ =>
      apply matches_opt_class in H; destruct H as (? & ?); subst
  end.

Lemma separator_class w :
  (w = [] \/ exists c, w = [c] /\ (N.eqb c (ch ".") || N.eqb c (ch ",")) = true) ->
  separator w.
Proof.
  intros [->|(c & -> & Hc)]; [left; reflexivity|].
  apply orb_true_iff in Hc. destruct Hc as [Hc|Hc]; apply N.eqb_eq in Hc; subst c.
  - right. left. reflexivity.
  - right. right. reflexivity.
Qed.

Lemma metres_match_shape value m :
  str_match value METRES_REGEX 1 = Some m -> metresShape value m.
Proof.
  unfold str_match. intros H.
  apply exec_sound in H. destruct H as (pre & w & post & cap' & -> & Hw & ->).
  unfold METRES_REGEX in Hw. repeat unfold_match.
  match goal with H : _ \/ _ |- _ => apply separator_class in H end.
  apply MetresShape; assumption.
Qed.

Lemma feet_match_shape value m :
  str_match value FEET_REGEX 2 = Some m -> feetShape value m.
Proof.
  unfold str_match. intros H.
  apply exec_sound in H. destruct H as (pre & w & post & cap' & -> & Hw & ->).
  unfold FEET_REGEX in Hw. repeat unfold_match.
  match goal with H : matches (Opt _) _ _ _ |- _ => inv H end.
  - apply FeetShape with (inches := []); auto. constructor.
  - repeat unfold_match.
    match goal with H : ?w <> [] |- _ => destruct w; [congruence|] end.
    apply FeetShape; auto.
Qed.

(** ** Numbers the code can produce *)

Lemma nonNegative_not_NaN x : nonNegative x -> isNaN x = false.
Proof. destruct x as [[]|[]| |[] ? ?]; cbn; intros H; auto; contradiction. Qed.

Section Rounding.

Variables prec emax : Z.

Lemma iter_pos_invariant (A : Type) (f : A -> A) (P : A -> Prop) :
  (forall x, P x -> P (f x)) ->
  forall n x, P x -> P (iter_pos f n x).
Proof.
  intros Hf. induction n as [n IH|n IH|]; intros x Hx; cbn; auto.
Qed.

Lemma shr_1_nonneg mrs : (0 <= shr_m mrs)%Z -> (0 <= shr_m (shr_1 mrs))%Z.
Proof.
  destruct mrs as [m r s]. destruct m as [|[p|p|]|p]; cbn; lia.
Qed.

Lemma shr_fexp_nonneg m e l :
  (0 <= m)%Z -> (0 <= shr_m (fst (shr_fexp prec emax m e l)))%Z.
Proof.
  intros Hm. unfold shr_fexp, shr.
  assert (H0 : (0 <= shr_m (shr_record_of_loc m l))%Z)
    by (destruct l as [|[]]; exact Hm).
  destruct (_ - e)%Z; cbn [fst]; auto.
  apply iter_pos_invariant; auto using shr_1_nonneg.
Qed.

Lemma round_nearest_even_nonneg m l :
  (0 <= m)%Z -> (0 <= round_nearest_even m l)%Z.
Proof.
  intros Hm. destruct l as [|[]]; cbn; try destruct (Z.even m); lia.
Qed.

Lemma binary_round_aux_nonNegative m e l :
  (0 <= m)%Z -> nonNegative (binary_round_aux prec emax false m e l).
Proof.
  intros Hm. unfold binary_round_aux.
  pose proof (shr_fexp_nonneg e l Hm) as H1.
  destruct (shr_fexp prec emax m e l) as [mrs' e']. cbn [fst] in H1.
  pose proof (shr_fexp_nonneg e' loc_Exact
                (round_nearest_even_nonneg (loc_of_shr_record mrs') H1)) as H2.
  destruct (shr_fexp prec emax _ e' loc_Exact) as [mrs'' e'']. cbn [fst] in H2.
  destruct (shr_m mrs''); [exact I | | lia].
  destruct (_ <=? _)%Z; exact I.
Qed.

Lemma binary_round_nonNegative m e :
  nonNegative (binary_round prec emax false m e).
Proof.
  unfold binary_round. destruct (shl_align _ _ _) as [mz ez].
  apply binary_round_aux_nonNegative. lia.
Qed.

Lemma SFmul_nonNegative x my ey :
  nonNegative x -> nonNegative (SFmul prec emax x (S754_finite false my ey)).
Proof.
  destruct x as [[]|[]| |[] mx ex]; cbn; try contradiction; auto; intros _.
  apply binary_round_aux_nonNegative. lia.
Qed.

Lemma SFadd_nonNegative x y :
  nonNegative x -> nonNegative y -> nonNegative (SFadd prec emax x y).
Proof.
  destruct x as [[]|[]| |[] mx ex]; cbn; try contradiction;
    destruct y as [[]|[]| |[] my ey]; cbn; try contradiction; auto; intros _ _.
  apply binary_round_nonNegative.
Qed.

End Rounding.

Lemma ofDecimal_nonNegative m e : nonNegative (ofDecimal false m e).
Proof.
  unfold ofDecimal. destruct m as [|p]; [exact I|].
  destruct e as [|k|k].
  - destruct (Z.pos p * 10 ^ 0)%Z; try exact I. apply binary_round_nonNegative.
  - destruct (Z.pos p * 10 ^ Z.pos k)%Z; try exact I. apply binary_round_nonNegative.
  - unfold SFdiv_core_binary.
    set (e' := Z.min _ _). set (m' := match (0 - 0 - e')%Z with Z0 => _ | _ => _ end).
    assert (Hm' : (0 <= m')%Z).
    { unfold m'. destruct (0 - 0 - e')%Z; try lia. apply Z.shiftl_nonneg. lia. }
    pose proof (Z_div_mod m' (Z.pow_pos 10 k)) as Hdiv.
    destruct (Z.div_eucl m' (Z.pow_pos 10 k)) as [q r].
    apply binary_round_aux_nonNegative.
    assert (Hpos : (0 < Z.pow_pos 10 k)%Z).
    { rewrite Z.pow_pos_fold. apply Z.pow_pos_nonneg; lia. }
    destruct Hdiv as [Hq Hr]; [lia|]. nia.
Qed.

(** A text that starts with a digit always converts. *)
Lemma parseFloat_digit_first c s :
  isDigit c = true -> nonNegative (parseFloat (c :: s)).
Proof.
  intros Hc. unfold parseFloat, trimStart. cbn [dropWhile].
  rewrite (digit_not_space c Hc).
  rewrite !(@digit_neq c _ Hc) by reflexivity.
  unfold parseUnsigned.
  replace (startsWith (lit "Infinity") (c :: s)) with false.
  2:{ cbn [lit list_ascii_of_string List.map startsWith].
      rewrite N.eqb_sym, (@digit_neq c "I" Hc); reflexivity. }
  cbn [takeWhile dropWhile]. rewrite Hc.
  destruct (match dropWhile isDigit s with [] => _ | _ => _ end) as [fp r3].
  cbn [isEmpty andb]. apply ofDecimal_nonNegative.
Qed.

Lemma lit_0_3048_value : lit_0_3048 = S754_finite false 5490788665690109 (-54).
Proof. vm_compute. reflexivity. Qed.

Lemma lit_0_0254_value : lit_0_0254 = S754_finite false 7321051554253478 (-58).
Proof. vm_compute. reflexivity. Qed.

(** ** The branch on the text of a cell *)

Lemma replace_digit_first c s :
  isDigit c = true ->
  replace (lit ",") (lit ".") (c :: s) = c :: replace (lit ",") (lit ".") s.
Proof.
  intros Hc. cbn [replace lit list_ascii_of_string List.map startsWith].
  rewrite N.eqb_sym, (@digit_neq c "," Hc) by reflexivity. reflexivity.
Qed.

Lemma replace_digits ds s :
  digits ds ->
  replace (lit ",") (lit ".") (ds ++ s) = ds ++ replace (lit ",") (lit ".") s.
Proof.
  induction 1 as [|c ds Hc _ IH]; [reflexivity|].
  cbn [app]. rewrite replace_digit_first by assumption. now rewrite IH.
Qed.

Lemma digits_cons ds : ds <> [] -> digits ds ->
  exists c s, ds = c :: s /\ isDigit c = true.
Proof.
  intros Hne Hd. destruct ds as [|c s]; [congruence|].
  inversion Hd; subst. eauto.
Qed.

(** The metres branch: a match is always pushed, the feet pattern is not
    looked at. *)
Lemma handleValue_metres value m :
  str_match value METRES_REGEX 1 = Some m ->
  exists g,
    group 1 m = Some g /\
    nonNegative (parseFloat (replace (lit ",") (lit ".") g)) /\
    pushes value (parseFloat (replace (lit ",") (lit ".") g)).
Proof.
  intros Hm. pose proof (metres_match_shape _ Hm) as Hs.
  destruct Hs as [pre int sep frac ws post Hne Hint Hsep Hfrac Hws].
  destruct (digits_cons Hne Hint) as (c & s & -> & Hc).
  exists ((c :: s) ++ sep ++ frac). split; [reflexivity|].
  assert (Hnn : nonNegative
            (parseFloat (replace (lit ",") (lit ".") ((c :: s) ++ sep ++ frac)))).
  { cbn [app]. rewrite replace_digit_first by assumption.
    now apply parseFloat_digit_first. }
  split; [exact Hnn|].
  intros columns. unfold handleValue. rewrite Hm. cbn [group nth].
  now rewrite (nonNegative_not_NaN _ Hnn).
Qed.

Lemma handleValue_feet value m :
  str_match value METRES_REGEX 1 = None ->
  str_match value FEET_REGEX 2 = Some m ->
  nonNegative (feetToMetres m) /\ pushes value (feetToMetres m).
Proof.
  intros Hm Hf. split.
  - pose proof (feet_match_shape _ Hf) as Hs.
    destruct Hs as [pre feet ws1 ws2 inches ws3 post Hne Hfeet _ _ Hin _].
    destruct (digits_cons Hne Hfeet) as (c & s & -> & Hc).
    unfold feetToMetres, add, mul. cbn [group nth parseFloatOf].
    rewrite lit_0_3048_value, lit_0_0254_value.
    apply SFadd_nonNegative; apply SFmul_nonNegative.
    + now apply parseFloat_digit_first.
    + destruct inches as [|c' s']; [exact I|].
      cbn [isEmpty truthy negb parseFloatOf].
      inversion Hin; subst. now apply parseFloat_digit_first.
  - intros columns. unfold handleValue. now rewrite Hm, Hf.
Qed.

Lemma handleValue_no_match value :
  str_match value METRES_REGEX 1 = None ->
  str_match value FEET_REGEX 2 = None ->
  skips value.
Proof.
  intros Hm Hf columns. unfold handleValue. now rewrite Hm, Hf.
Qed.

Lemma handleValue_cases value :
  skips value \/ exists v, nonNegative v /\ pushes value v.
Proof.
  destruct (str_match value METRES_REGEX 1) as [m|] eqn:Hm.
  - right. destruct (handleValue_metres _ Hm) as (g & _ & Hnn & Hp). eauto.
  - destruct (str_match value FEET_REGEX 2) as [m|] eqn:Hf.
    + right. destruct (handleValue_feet _ Hm Hf). eauto.
    + left. now apply handleValue_no_match.
Qed.

Lemma pushes_not_skips value v : pushes value v -> ~ skips value.
Proof.
  intros Hp Hs.
  specialize (Hp [ {| header := []; values := [] |} ]).
  rewrite Hs in Hp. discriminate.
Qed.

Lemma pushes_unique value v v' : pushes value v -> pushes value v' -> v = v'.
Proof.
  intros H H'. specialize (H [ {| header := []; values := [] |} ]).
  rewrite H' in H. cbn in H. congruence.
Qed.

(** ** The loop over the rows *)

Lemma emitted_pushes value v : emitted value = Some v <-> pushes value v.
Proof.
  unfold emitted. split.
  - destruct (handleValue_cases value) as [Hs|(v' & _ & Hp)].
    + rewrite Hs. discriminate.
    + rewrite Hp. cbn. intros [= ->]. exact Hp.
  - intros Hp. now rewrite Hp.
Qed.

Lemma emitted_skips value : emitted value = None <-> skips value.
Proof.
  unfold emitted. split.
  - destruct (handleValue_cases value) as [Hs|(v' & _ & Hp)]; [auto|].
    rewrite Hp. discriminate.
  - intros Hs. now rewrite Hs.
Qed.

Lemma handleRow_emitted rows i c rest :
  i < List.length rows ->
  handleRow rows i (c :: rest) =
  Return ({| header := header c;
             values := values c ++ optionList (rowEmitted rows i) |} :: rest).
Proof.
  intros Hi. unfold handleRow, rowEmitted.
  destruct (nth_error rows i) as [cells|] eqn:E.
  2:{ apply nth_error_None in E. lia. }
  destruct cells as [|markCell cells].
  - cbn. rewrite app_nil_r. now destruct c.
  - destruct (emitted (cellValue markCell)) as [v|] eqn:Ev.
    + apply emitted_pushes in Ev. now rewrite Ev.
    + apply emitted_skips in Ev. rewrite Ev. cbn. rewrite app_nil_r. now destruct c.
Qed.

Lemma loop_emitted rows idxs : forall c rest,
  Forall (fun i => i < List.length rows) idxs ->
  fold_left (fun st i => columns <- st ;; handleRow rows i columns) idxs
    (Return (c :: rest)) =
  Return ({| header := header c;
             values := values c
                         ++ flat_map (fun i => optionList (rowEmitted rows i)) idxs |}
            :: rest).
Proof.
  induction idxs as [|i idxs IH]; intros c rest Hall.
  - cbn. rewrite app_nil_r. now destruct c.
  - inversion Hall as [|? ? Hi Hall']; subst.
    cbn [fold_left bind flat_map]. rewrite handleRow_emitted by assumption.
    rewrite IH by assumption. cbn [header values]. now rewrite app_assoc.
Qed.

Lemma loopIndices_range rows :
  Forall (fun i => 1 <= i < List.length rows) (loopIndices rows).
Proof.
  apply Forall_forall. intros i Hi. unfold loopIndices in Hi.
  apply in_seq in Hi. lia.
Qed.

(** [extractColumnData] never throws; it returns the column of the scanned
    values, or nothing when there is none. *)
Lemma extractColumnData_scanned table :
  extractColumnData table =
  Return (if 0 <? List.length (scanned table)
          then [ {| header := lit "Height"; values := scanned table |} ]
          else []).
Proof.
  unfold extractColumnData. rewrite loop_emitted.
  - reflexivity.
  - eapply Forall_impl; [|apply loopIndices_range]. cbn. lia.
Qed.

Lemma getColumns_loop tables : forall acc,
  fold_left (fun st table =>
               column <- st ;;
               columnDatas <- extractColumnData table ;;
               Return (column ++ columnDatas))
    tables (Return acc) =
  Return (acc ++ flat_map columnsOf tables).
Proof.
  induction tables as [|t tables IH]; intros acc; cbn [fold_left flat_map].
  - now rewrite app_nil_r.
  - cbn [bind]. rewrite extractColumnData_scanned. cbn [bind].
    rewrite IH. now rewrite <- app_assoc.
Qed.

Lemma getColumns_document tables :
  tables <> [] ->
  getColumns (Document tables) = Return (flat_map columnsOf tables).
Proof.
  intros Hne. unfold getColumns, getTables.
  destruct tables as [|t tables]; [congruence|].
  cbn [List.length Nat.eqb tryCatch bind]. apply (getColumns_loop (t :: tables) []).
Qed.

(** ** The greedy match of the metres pattern *)

Lemma rmatch_seq r1 r2 x cap k :
  rmatch (Seq r1 r2) x cap k = rmatch r1 x cap (fun y cap' => rmatch r2 y cap' k).
Proof. reflexivity. Qed.

Lemma rmatch_group i r x cap k :
  rmatch (Group i r) x cap k =
  rmatch r x cap
    (fun y cap' =>
       k y (setCapture i (Some (firstn (List.length x - List.length y) x)) cap')).
Proof. reflexivity. Qed.

Lemma rmatch_char c c' x cap k :
  rmatch (Char c) (c' :: x) cap k = if N.eqb c' c then k x cap else None.
Proof. reflexivity. Qed.

Ltac list_assoc :=
  repeat (rewrite <- ?app_assoc; cbn [app]); reflexivity.

Lemma firstn_app_length3 (w y z : jsstring) :
  firstn (List.length (w ++ y ++ z) - List.length z) (w ++ y ++ z) = w ++ y.
Proof. rewrite app_assoc. apply firstn_app_length. Qed.

Lemma headNot_digit_after_spaces ws post :
  spaces ws -> headNot isDigit (ws ++ ch "m" :: post).
Proof.
  intros Hws. destruct ws as [|c ws]; [reflexivity|].
  inversion Hws; subst. cbn.
  destruct (isDigit c) eqn:E; [|reflexivity].
  apply digit_not_space in E. congruence.
Qed.

Lemma headNot_separator_after_spaces ws post :
  spaces ws ->
  headNot (fun c => N.eqb c (ch ".") || N.eqb c (ch ",")) (ws ++ ch "m" :: post).
Proof.
  intros Hws. destruct ws as [|c ws]; [reflexivity|].
  inversion Hws as [|? ? Hc _]; subst. cbn [app headNot].
  apply orb_false_iff; split; apply N.eqb_neq; intros ->; discriminate.
Qed.

(** The tail of the pattern, white space and [m], on its greedy path. *)
Lemma metres_tail ws post cap k res :
  spaces ws -> k post cap = Some res ->
  rmatch (Seq (Star (Class isWhiteSpace)) (Char (ch "m")))
    (ws ++ ch "m" :: post) cap k = Some res.
Proof.
  intros Hws Hk. rewrite rmatch_seq.
  apply star_class_greedy; [exact Hws | reflexivity |].
  rewrite rmatch_char. exact Hk.
Qed.

(** Digits, white space, [m]: the group is the digits. *)
Lemma metres_here_plain ds ws post :
  ds <> [] -> digits ds -> spaces ws ->
  matchHere METRES_REGEX 1 (ds ++ ws ++ ch "m" :: post) =
  Some [Some (ds ++ ws ++ [ch "m"]); Some ds].
Proof.
  intros Hne Hds Hws. unfold matchHere, METRES_REGEX.
  rewrite rmatch_seq, rmatch_group, rmatch_seq.
  apply plus_class_greedy; auto using headNot_digit_after_spaces.
  rewrite rmatch_seq.
  rewrite opt_class_skip by auto using headNot_separator_after_spaces.
  rewrite star_class_skip by auto using headNot_digit_after_spaces.
  apply metres_tail; [exact Hws|].
  rewrite firstn_app_length.
  replace (ds ++ ws ++ ch "m" :: post) with (ds ++ (ws ++ [ch "m"]) ++ post)
    by list_assoc.
  rewrite firstn_app_length3. reflexivity.
Qed.

(** Digits, a separator, digits, white space, [m]: the group runs from the
    first digit to the last. *)
Lemma metres_here_decimal ds sep frac ws post :
  ds <> [] -> digits ds -> sep = ch "." \/ sep = ch "," -> digits frac ->
  spaces ws ->
  matchHere METRES_REGEX 1 (ds ++ sep :: frac ++ ws ++ ch "m" :: post) =
  Some [Some (ds ++ sep :: frac ++ ws ++ [ch "m"]); Some (ds ++ sep :: frac)].
Proof.
  intros Hne Hds Hsep Hfrac Hws. unfold matchHere, METRES_REGEX.
  rewrite rmatch_seq, rmatch_group, rmatch_seq.
  apply plus_class_greedy; auto.
  { destruct Hsep as [->| ->]; reflexivity. }
  rewrite rmatch_seq.
  apply opt_class_take. { destruct Hsep as [->| ->]; reflexivity. }
  apply star_class_greedy; auto using headNot_digit_after_spaces.
  apply metres_tail; [exact Hws|].
  replace (ds ++ sep :: frac ++ ws ++ ch "m" :: post)
    with ((ds ++ sep :: frac) ++ (ws ++ [ch "m"]) ++ post)
    by list_assoc.
  rewrite firstn_app_length3.
  replace ((ds ++ sep :: frac) ++ (ws ++ [ch "m"]) ++ post)
    with ((ds ++ sep :: frac) ++ (ws ++ ch "m" :: post))
    by list_assoc.
  rewrite firstn_app_length.
  cbn [setCapture List.repeat]. list_assoc.
Qed.

(** Both patterns start with a digit: an attempt elsewhere fails at once. *)
Lemma metres_here_not_digit x :
  headNot isDigit x -> matchHere METRES_REGEX 1 x = None.
Proof.
  intros Hx. unfold matchHere, METRES_REGEX.
  rewrite rmatch_seq, rmatch_group, rmatch_seq. now apply plus_class_fail.
Qed.

Lemma feet_here_not_digit x :
  headNot isDigit x -> matchHere FEET_REGEX 2 x = None.
Proof.
  intros Hx. unfold matchHere, FEET_REGEX.
  rewrite rmatch_seq, rmatch_group. now apply plus_class_fail.
Qed.

Lemma exec_skip_prefix r n pre x :
  (forall y, headNot isDigit y -> matchHere r n y = None) ->
  Forall (fun c => isDigit c = false) pre ->
  exec r n (pre ++ x) = exec r n x.
Proof.
  intros Hr. induction 1 as [|c pre Hc _ IH]; [reflexivity|].
  cbn [app]. rewrite exec_skip; [exact IH|]. apply Hr. exact Hc.
Qed.

Lemma handleValue_skip_prefix pre value columns :
  Forall (fun c => isDigit c = false) pre ->
  handleValue (pre ++ value) columns = handleValue value columns.
Proof.
  intros Hpre. unfold handleValue, str_match.
  rewrite !(exec_skip_prefix _ _ _ metres_here_not_digit Hpre) by assumption.
  rewrite !(exec_skip_prefix _ _ _ feet_here_not_digit Hpre) by assumption.
  reflexivity.
Qed.

(** ** Letters a match needs *)

Lemma metres_needs_m value m :
  str_match value METRES_REGEX 1 = Some m -> In (ch "m") value.
Proof.
  intros H. destruct (metres_match_shape _ H).
  rewrite !in_app_iff. cbn [In]. intuition.
Qed.

Lemma feet_needs_i value m :
  str_match value FEET_REGEX 2 = Some m -> In (ch "i") value.
Proof.
  intros H. destruct (feet_match_shape _ H).
  rewrite !in_app_iff. cbn [In]. intuition.
Qed.

Lemma no_match_without value :
  ~ In (ch "m") value -> ~ In (ch "i") value ->
  str_match value METRES_REGEX 1 = None /\ str_match value FEET_REGEX 2 = None.
Proof.
  intros Hm Hi. split.
  - destruct (str_match value METRES_REGEX 1) eqn:E; [|reflexivity].
    now apply metres_needs_m in E.
  - destruct (str_match value FEET_REGEX 2) eqn:E; [|reflexivity].
    now apply feet_needs_i in E.
Qed.

Lemma digits_without (a : ascii) ds :
  isDigit (ch a) = false -> digits ds -> ~ In (ch a) ds.
Proof.
  intros Ha Hds Hin. unfold digits in Hds. rewrite Forall_forall in Hds.
  apply Hds in Hin. congruence.
Qed.

Lemma spaces_without (a : ascii) ws :
  isWhiteSpace (ch a) = false -> spaces ws -> ~ In (ch a) ws.
Proof.
  intros Ha Hws Hin. unfold spaces in Hws. rewrite Forall_forall in Hws.
  apply Hws in Hin. congruence.
Qed.

(** * The claims *)

(** C1. For the table with the rows ["Header"], ["1.85 m"], ["n/a"],
    ["6 ft 1 in"], [extractColumnData] (and [getColumns] on a page with this
    one table) returns exactly one column, with the header "Height" and two
    values: the Number 1.85, and the Number 6 * 0.3048 + 1 * 0.0254, which
    is within 1e-3 of 1.8542. *)
Theorem C1_example_metres_and_feet :
  let v1 := ofDecimal false 185 (-2) in
  let v2 := add (mul (ofDecimal false 6 0) lit_0_3048)
                (mul (ofDecimal false 1 0) lit_0_0254) in
  extractColumnData example1
    = Return [ {| header := lit "Height"; values := [v1; v2] |} ] /\
  getColumns (Document [example1])
    = Return [ {| header := lit "Height"; values := [v1; v2] |} ] /\
  within v1 (185 # 100) (1 # 1000) /\
  within v2 (18542 # 10000) (1 # 1000).
Proof.
  cbv zeta. split; [|split; [|split]].
  - vm_compute. reflexivity.
  - vm_compute. reflexivity.
  - unfold within. vm_compute. discriminate.
  - unfold within. vm_compute. discriminate.
Qed.

Lemma feet_only_no_match f ws :
  digits f -> spaces ws ->
  ~ In (ch "m") (f ++ ws ++ lit "ft") /\ ~ In (ch "i") (f ++ ws ++ lit "ft").
Proof.
  intros Hf Hws.
  split; intros H; apply in_app_or in H; destruct H as [H|H];
    try (revert H; now apply digits_without);
    apply in_app_or in H; destruct H as [H|H];
    try (revert H; now apply spaces_without);
    cbn in H; intuition discriminate.
Qed.

(** C3. A text made of digits, white space and "ft", with no "in" after
    it, is not matched by the feet pattern; it has no "m" either, so the
    metres pattern fails too and the cell is skipped. *)
Theorem C3_feet_pattern_requires_in f ws :
  digits f -> spaces ws ->
  str_match (f ++ ws ++ lit "ft") FEET_REGEX 2 = None /\
  str_match (f ++ ws ++ lit "ft") METRES_REGEX 1 = None /\
  skips (f ++ ws ++ lit "ft").
Proof.
  intros Hf Hws. destruct (feet_only_no_match Hf Hws) as [Hm Hi].
  destruct (@no_match_without _ Hm Hi) as [Em Ef].
  repeat split; auto. now apply handleValue_no_match.
Qed.

Lemma C3_witness :
  str_match (lit "6 ft") FEET_REGEX 2 = None /\
  str_match (lit "6 ft") METRES_REGEX 1 = None /\
  skips (lit "6 ft").
Proof.
  apply (@C3_feet_pattern_requires_in (lit "6") (lit " "));
    repeat constructor.
Defined.

(** ** No measurement at all *)

Lemma columnsOf_extract t : extractColumnData t = Return (columnsOf t).
Proof. apply extractColumnData_scanned. Qed.

Lemma flat_map_columnsOf_nil tables :
  Forall (fun t => extractColumnData t = Return []) tables ->
  flat_map columnsOf tables = [].
Proof.
  induction 1 as [|t tables Ht _ IH]; [reflexivity|].
  cbn [flat_map]. rewrite columnsOf_extract in Ht. injection Ht as ->. exact IH.
Qed.

Lemma generateChart_document tables :
  tables <> [] ->
  generateChart (Document tables) =
  if List.length (flat_map columnsOf tables) =? 0
  then Throw (Error noColumnsMessage) else Return tt.
Proof.
  intros Hne. unfold generateChart. rewrite getColumns_document by assumption.
  cbn [bind]. destruct (_ =? 0); reflexivity.
Qed.

Lemma generateChart_no_tables page :
  (forall tables, page = Document tables -> tables = []) ->
  exists msg,
    getColumns page = Throw (Error (lit "Failed to get tables: " ++ msg)) /\
    generateChart page =
    Throw (Error (lit "Failed to generate chart: " ++ lit "Failed to get tables: " ++ msg)).
Proof.
  intros Hp. destruct page as [e| |tables].
  - exists (errorMsg e). split; reflexivity.
  - exists (lit "Failed to fetch Wikipedia Content"). split; reflexivity.
  - rewrite (Hp tables eq_refl). exists (lit "No table found"). split; reflexivity.
Qed.

(** C5. When there are tables and none of them gives a column,
    [generateChart] throws the error whose message reads "Failed to
    generate chart: No numeric columns found in the tables"; no other
    failure has this message; [generateChart] returns normally only when
    [getColumns] returned at least one column; and the table whose only
    data row is ["—"] is such a failure. *)
Theorem C5_no_measurements_found :
  (forall tables,
      tables <> [] ->
      Forall (fun t => extractColumnData t = Return []) tables ->
      getColumns (Document tables) = Return [] /\
      generateChart (Document tables) = Throw (Error noColumnsMessage)) /\
  contains (lit "No numeric columns found") noColumnsMessage /\
  (forall page,
      generateChart page = Throw (Error noColumnsMessage) ->
      exists tables,
        page = Document tables /\ tables <> [] /\ getColumns page = Return []) /\
  (forall page,
      generateChart page = Return tt ->
      exists columns, getColumns page = Return columns /\ columns <> []) /\
  generateChart (Document [[[cell "Header"]; [dashCell]]])
    = Throw (Error noColumnsMessage).
Proof.
  split; [|split; [|split; [|split]]].
  - intros tables Hne Hall. apply flat_map_columnsOf_nil in Hall.
    rewrite generateChart_document, getColumns_document, Hall by assumption.
    split; reflexivity.
  - exists (lit "Failed to generate chart: "), (lit " in the tables"). reflexivity.
  - intros page H.
    assert (Hd : exists tables, page = Document tables /\ tables <> []).
    { destruct page as [e| |[|t tables]].
      - vm_compute in H. discriminate.
      - vm_compute in H. discriminate.
      - vm_compute in H. discriminate.
      - exists (t :: tables). split; [reflexivity | discriminate]. }
    destruct Hd as (tables & -> & Hne). exists tables. repeat split; auto.
    rewrite generateChart_document in H by assumption.
    rewrite getColumns_document by assumption.
    destruct (flat_map columnsOf tables); [reflexivity | discriminate].
  - intros page H.
    assert (Hd : exists tables, page = Document tables /\ tables <> []).
    { destruct page as [e| |[|t tables]]; try discriminate.
      exists (t :: tables). split; [reflexivity | discriminate]. }
    destruct Hd as (tables & -> & Hne).
    rewrite generateChart_document in H by assumption.
    rewrite getColumns_document by assumption.
    exists (flat_map columnsOf tables). split; [reflexivity|].
    destruct (flat_map columnsOf tables); discriminate.
  - vm_compute. reflexivity.
Qed.

Lemma C5_witness :
  (getColumns (Document [[[cell "Header"]; [cell "n/a"]]]) = Return [] /\
   generateChart (Document [[[cell "Header"]; [cell "n/a"]]])
     = Throw (Error noColumnsMessage)) /\
  (exists tables,
      Document [[[cell "Header"]; [dashCell]]] = Document tables /\
      tables <> [] /\
      getColumns (Document [[[cell "Header"]; [dashCell]]]) = Return []) /\
  (exists columns,
      getColumns (Document [example1]) = Return columns /\ columns <> []).
Proof.
  split; [|split].
  - apply (proj1 C5_no_measurements_found).
    + discriminate.
    + repeat constructor.
  - apply (proj1 (proj2 (proj2 C5_no_measurements_found))).
    vm_compute. reflexivity.
  - apply (proj1 (proj2 (proj2 (proj2 C5_no_measurements_found)))).
    vm_compute. reflexivity.
Defined.

(** C8. When the metres pattern matches, the value pushed is the one of its
    group, also when the feet pattern matches the same text: that text
    pushes no other value. "2 m" pushes the Number 2. *)
Theorem C8_metres_before_feet :
  (forall value m f,
      str_match value METRES_REGEX 1 = Some m ->
      str_match value FEET_REGEX 2 = Some f ->
      exists g,
        group 1 m = Some g /\
        pushes value (parseFloat (replace (lit ",") (lit ".") g)) /\
        forall v, pushes value v -> v = parseFloat (replace (lit ",") (lit ".") g)) /\
  pushes (lit "2 m") (ofDecimal false 2 0).
Proof.
  split.
  - intros value m f Hm _.
    destruct (handleValue_metres _ Hm) as (g & Hg & _ & Hp).
    exists g. repeat split; auto.
    intros v Hv. eapply pushes_unique; eauto.
  - intros columns. vm_compute. reflexivity.
Qed.

Lemma C8_witness :
  exists g,
    group 1 [Some (lit "1.88 m"); Some (lit "1.88")] = Some g /\
    pushes (lit "1.88 m (6 ft 2 in)") (parseFloat (replace (lit ",") (lit ".") g)) /\
    forall v, pushes (lit "1.88 m (6 ft 2 in)") v ->
              v = parseFloat (replace (lit ",") (lit ".") g).
Proof.
  apply (proj1 C8_metres_before_feet (lit "1.88 m (6 ft 2 in)")
           [Some (lit "1.88 m"); Some (lit "1.88")]
           [Some (lit "6 ft 2 in"); Some (lit "6"); Some (lit "2")]).
  - vm_compute. reflexivity.
  - vm_compute. reflexivity.
Defined.

(** ** Comma and dot *)

Lemma replace_nil : replace (lit ",") (lit ".") [] = [].
Proof. reflexivity. Qed.

Lemma replace_decimal d1 sep d2 :
  digits d1 -> sep = ch "." \/ sep = ch "," -> digits d2 ->
  replace (lit ",") (lit ".") (d1 ++ sep :: d2) = d1 ++ ch "." :: d2.
Proof.
  intros H1 Hsep H2. rewrite replace_digits by assumption. f_equal.
  destruct Hsep as [-> | ->].
  - change (replace (lit ",") (lit ".") (ch "." :: d2))
      with (ch "." :: replace (lit ",") (lit ".") d2).
    f_equal. rewrite <- (app_nil_r d2) at 1.
    rewrite replace_digits by assumption. now rewrite replace_nil, app_nil_r.
  - reflexivity.
Qed.

Lemma pushes_decimal d1 sep d2 :
  d1 <> [] -> digits d1 -> sep = ch "." \/ sep = ch "," -> digits d2 ->
  pushes (d1 ++ sep :: d2 ++ lit " m") (parseFloat (d1 ++ ch "." :: d2)).
Proof.
  intros Hne H1 Hsep H2.
  assert (Hm : str_match (d1 ++ sep :: d2 ++ lit " m") METRES_REGEX 1
               = Some [Some (d1 ++ sep :: d2 ++ lit " m"); Some (d1 ++ sep :: d2)]).
  { apply exec_here.
    apply (@metres_here_decimal d1 sep d2 (lit " ") []); auto.
    repeat constructor. }
  destruct (handleValue_metres _ Hm) as (g & Hg & _ & Hp).
  cbn [group nth] in Hg. injection Hg as <-.
  now rewrite replace_decimal in Hp.
Qed.

(** C9. With digits [d1] and [d2], the texts "d1,d2 m" and "d1.d2 m" are
    handled alike; when [d1] is not empty both push the Number that
    [parseFloat] gives for "d1.d2". *)
Theorem C9_comma_and_dot_agree d1 d2 :
  digits d1 -> digits d2 ->
  (forall columns,
      handleValue (d1 ++ lit "," ++ d2 ++ lit " m") columns
      = handleValue (d1 ++ lit "." ++ d2 ++ lit " m") columns) /\
  (d1 <> [] ->
   pushes (d1 ++ lit "," ++ d2 ++ lit " m") (parseFloat (d1 ++ lit "." ++ d2)) /\
   pushes (d1 ++ lit "." ++ d2 ++ lit " m") (parseFloat (d1 ++ lit "." ++ d2))).
Proof.
  intros H1 H2.
  assert (Hp : d1 <> [] ->
               pushes (d1 ++ lit "," ++ d2 ++ lit " m") (parseFloat (d1 ++ lit "." ++ d2)) /\
               pushes (d1 ++ lit "." ++ d2 ++ lit " m") (parseFloat (d1 ++ lit "." ++ d2))).
  { intros Hne. split.
    - apply (@pushes_decimal d1 (ch ",") d2); auto.
    - apply (@pushes_decimal d1 (ch ".") d2); auto. }
  split; [|exact Hp].
  intros columns. destruct d1 as [|c d1].
  - cbn [app].
    rewrite (@handleValue_skip_prefix (lit ",") (d2 ++ lit " m") columns)
      by (repeat constructor).
    rewrite (@handleValue_skip_prefix (lit ".") (d2 ++ lit " m") columns)
      by (repeat constructor).
    reflexivity.
  - destruct Hp as [Hc Hd]; [discriminate|]. now rewrite Hc, Hd.
Qed.

Lemma C9_witness :
  (forall columns,
      handleValue (lit "1,85 m") columns = handleValue (lit "1.85 m") columns) /\
  pushes (lit "1,85 m") (parseFloat (lit "1.85")) /\
  pushes (lit "1.85 m") (parseFloat (lit "1.85")).
Proof.
  destruct (@C9_comma_and_dot_agree (lit "1") (lit "85")) as [H1 H2];
    [repeat constructor | repeat constructor |].
  split; [exact H1 | apply H2; discriminate].
Defined.

(** ** Values within the range *)

Section Range.

Local Open Scope Z_scope.

Lemma atMost_finite C x : atMost C x -> finite x.
Proof. destruct x; cbn; auto. Qed.

Lemma atMost_le C C' x : C <= C' -> atMost C x -> atMost C' x.
Proof.
  intros HC. destruct x as [| | |s m e]; cbn; auto. intros [Hm He].
  split; [|exact He].
  eapply Z.le_trans; [exact Hm|].
  apply Z.mul_le_mono_nonneg_r; [apply Z.pow_nonneg; lia | exact HC].
Qed.

Lemma digits2_size p : digits2_pos p = Pos.size p.
Proof. induction p as [p IH|p IH|]; cbn; now rewrite ?IH. Qed.

Lemma Zdigits2_gt m : 0 <= m -> m < 2 ^ Zdigits2 m.
Proof.
  destruct m as [|p|p]; cbn [Zdigits2]; intros Hm; [reflexivity| |lia].
  rewrite digits2_size.
  pose proof (Pos.size_gt p) as H.
  apply Pos2Z.pos_lt_pos in H. now rewrite Pos2Z.inj_pow in H.
Qed.

Lemma Zdigits2_bound m k : 0 <= m -> 0 <= k -> m < 2 ^ k -> Zdigits2 m <= k.
Proof.
  destruct m as [|p|p]; cbn [Zdigits2]; intros Hm Hk Hlt; [exact Hk| |lia].
  rewrite digits2_size.
  pose proof (Pos.size_le p) as H.
  apply Pos2Z.pos_le_pos in H. rewrite Pos2Z.inj_pow in H.
  assert (Hlt' : 2 ^ Z.pos (Pos.size p) < 2 ^ (k + 1)).
  { rewrite Z.pow_add_r, Z.pow_1_r by lia. lia. }
  apply Z.pow_lt_mono_r_iff in Hlt'; lia.
Qed.

Lemma fexp_binary64 x : fexp prec emax x = Z.max (x - 53) (-1074).
Proof. reflexivity. Qed.

Lemma shr_1_half mrs : 0 <= shr_m mrs -> shr_m (shr_1 mrs) = shr_m mrs / 2.
Proof.
  destruct mrs as [m r s]. cbn [shr_m]. intros Hm.
  rewrite <- Z.div2_div. destruct m as [|[p|p|]|p]; try reflexivity; lia.
Qed.

Lemma shr_m_iter n : forall mrs,
  0 <= shr_m mrs -> shr_m (iter_pos shr_1 n mrs) = shr_m mrs / 2 ^ Z.pos n.
Proof.
  assert (Hpow : forall p, 0 < 2 ^ Z.pos p) by (intros p; apply Z.pow_pos_nonneg; lia).
  induction n as [n IH|n IH|]; intros mrs Hm; cbn [iter_pos].
  - pose proof (@shr_1_nonneg mrs Hm) as H1.
    pose proof (@iter_pos_invariant _ shr_1 (fun x => 0 <= shr_m x) shr_1_nonneg n _ H1) as H2.
    rewrite (IH _ H2), (IH _ H1), shr_1_half by exact Hm.
    rewrite !Z.div_div by (try apply Hpow; lia).
    f_equal. replace (Z.pos n~1) with (1 + Z.pos n + Z.pos n) by lia.
    rewrite !Z.pow_add_r, Z.pow_1_r by lia. ring.
  - pose proof (@iter_pos_invariant _ shr_1 (fun x => 0 <= shr_m x) shr_1_nonneg n _ Hm) as H2.
    rewrite (IH _ H2), (IH _ Hm).
    rewrite !Z.div_div by (try apply Hpow; lia).
    f_equal. replace (Z.pos n~0) with (Z.pos n + Z.pos n) by lia.
    rewrite Z.pow_add_r by lia. ring.
  - rewrite shr_1_half by exact Hm. reflexivity.
Qed.

(** Moving the exponent from [e] up to [e']. *)
Lemma scale_split C e e' :
  e <= e' <= 971 -> C * 2 ^ (971 - e) = 2 ^ (e' - e) * (C * 2 ^ (971 - e')).
Proof.
  intros H. replace (971 - e) with ((e' - e) + (971 - e')) by lia.
  rewrite Z.pow_add_r by lia. ring.
Qed.

Lemma scale_room C e x :
  C < 2 ^ 53 -> e <= 971 -> x <= C * 2 ^ (971 - e) -> x < 2 ^ (1024 - e).
Proof.
  intros HC He Hx. replace (1024 - e) with (53 + (971 - e)) by lia.
  rewrite Z.pow_add_r by lia.
  eapply Z.le_lt_trans; [exact Hx|].
  apply Z.mul_lt_mono_pos_r; [apply Z.pow_pos_nonneg; lia | exact HC].
Qed.

(** What [shr_fexp] does to a mantissa below [2^(1024-e)]: it is divided by
    a power of two, the exponent grows as much and stays within 971. *)
Lemma shr_fexp_scaled m e l mrs e' :
  0 <= m < 2 ^ (1024 - e) -> e <= 971 ->
  shr_fexp prec emax m e l = (mrs, e') ->
  e <= e' <= 971 /\ shr_m mrs = m / 2 ^ (e' - e).
Proof.
  intros [Hm0 Hm] He. unfold shr_fexp, shr. rewrite fexp_binary64.
  assert (Hd : Zdigits2 m <= 1024 - e) by (apply Zdigits2_bound; lia).
  assert (H0 : shr_m (shr_record_of_loc m l) = m) by (destruct l as [|[]]; reflexivity).
  destruct (Z.max (Zdigits2 m + e - 53) (-1074) - e) as [|n|n] eqn:En.
  - intros [= <- <-]. rewrite H0, Z.sub_diag, Z.pow_0_r, Z.div_1_r. lia.
  - intros [= <- <-]. rewrite shr_m_iter, H0 by (rewrite H0; exact Hm0).
    replace (e + Z.pos n - e) with (Z.pos n) by lia. lia.
  - intros [= <- <-]. rewrite H0, Z.sub_diag, Z.pow_0_r, Z.div_1_r. lia.
Qed.

Lemma round_nearest_even_le m l : m <= round_nearest_even m l <= m + 1.
Proof. destruct l as [|[]]; cbn; try destruct (Z.even m); lia. Qed.

(** Rounding a value below [C * 2^971], for [C] below [2^53], does not
    overflow: the result is at most [C * 2^971]. *)
Lemma binary_round_aux_atMost C s m e l :
  0 < C < 2 ^ 53 -> 0 <= m < C * 2 ^ (971 - e) -> e <= 971 ->
  atMost C (binary_round_aux prec emax s m e l).
Proof.
  intros HC [Hm0 Hm] He. unfold binary_round_aux.
  assert (Hroom : m < 2 ^ (1024 - e)) by (apply scale_room with (C := C); lia).
  destruct (shr_fexp prec emax m e l) as [mrs1 e1] eqn:E1.
  destruct (shr_fexp_scaled l (conj Hm0 Hroom) He E1) as (He1 & Hm1).
  assert (Hp1 : 0 < 2 ^ (e1 - e)) by (apply Z.pow_pos_nonneg; lia).
  assert (Hm1' : 0 <= shr_m mrs1 < C * 2 ^ (971 - e1)).
  { rewrite Hm1. split; [apply Z.div_pos; lia|].
    apply Z.div_lt_upper_bound; [exact Hp1|].
    rewrite <- scale_split by lia. exact Hm. }
  pose proof (round_nearest_even_le (shr_m mrs1) (loc_of_shr_record mrs1)) as Hr.
  set (m2 := round_nearest_even (shr_m mrs1) (loc_of_shr_record mrs1)) in *.
  assert (Hm2 : 0 <= m2 <= C * 2 ^ (971 - e1)) by lia.
  assert (Hroom2 : m2 < 2 ^ (1024 - e1)) by (apply scale_room with (C := C); lia).
  destruct (shr_fexp prec emax m2 e1 loc_Exact) as [mrs2 e2] eqn:E2.
  destruct (shr_fexp_scaled loc_Exact (conj (proj1 Hm2) Hroom2) (proj2 He1) E2)
    as (He2 & Hm3).
  assert (Hp2 : 0 < 2 ^ (e2 - e1)) by (apply Z.pow_pos_nonneg; lia).
  assert (Hm3' : 0 <= shr_m mrs2 <= C * 2 ^ (971 - e2)).
  { rewrite Hm3. split; [apply Z.div_pos; lia|].
    apply Z.div_le_upper_bound; [exact Hp2|].
    rewrite <- scale_split by lia. lia. }
  destruct (shr_m mrs2) as [|p|p]; [exact I| |lia].
  replace (e2 <=? emax - prec) with true
    by (symmetry; apply Z.leb_le; unfold emax, prec; lia).
  cbn [atMost]. lia.
Qed.

Lemma iter_xO m d : Z.pos (Pos.iter xO m d) = Z.pos m * 2 ^ Z.pos d.
Proof.
  induction d as [|d IH] using Pos.peano_ind.
  - cbn [Pos.iter]. lia.
  - rewrite Pos.iter_succ, Pos2Z.inj_succ, Z.pow_succ_r by lia.
    change (Z.pos (Pos.iter xO m d)~0) with (2 * Z.pos (Pos.iter xO m d)).
    rewrite IH. ring.
Qed.

Lemma shl_align_value m e ex' :
  ex' <= e ->
  Z.pos (fst (shl_align m e ex')) = Z.pos m * 2 ^ (e - ex') /\
  snd (shl_align m e ex') = ex'.
Proof.
  intros Hle. unfold shl_align.
  destruct (ex' - e) as [|d|d] eqn:Ed; cbn [fst snd].
  - replace (e - ex') with 0 by lia. cbn. lia.
  - lia.
  - rewrite iter_xO. replace (e - ex') with (Z.pos d) by lia. lia.
Qed.

Lemma binary_round_atMost C s m e :
  0 < C < 2 ^ 53 -> Z.pos m < C * 2 ^ (971 - e) -> e <= 971 ->
  atMost C (binary_round prec emax s m e).
Proof.
  intros HC Hm He. unfold binary_round.
  set (ex' := fexp prec emax (Z.pos (digits2_pos m) + e)).
  destruct (Z.le_gt_cases ex' e) as [Hle|Hgt].
  - destruct (@shl_align_value m e ex' Hle) as [Hv He'].
    destruct (shl_align m e ex') as [mz ez]. cbn [fst snd] in Hv, He'. subst ez.
    apply binary_round_aux_atMost; try lia.
    rewrite Hv. split; [lia|].
    rewrite (@scale_split C ex' e) by lia. rewrite Z.mul_comm.
    apply Z.mul_lt_mono_pos_l; [apply Z.pow_pos_nonneg; lia | exact Hm].
  - unfold shl_align. destruct (ex' - e) as [|d|d] eqn:Ed; try lia.
    apply binary_round_aux_atMost; lia.
Qed.

(** A product with a positive constant [mc * 2^ec]. *)
Lemma mul_atMost Cx C x mc ec :
  atMost Cx x -> ec <= 0 -> Cx * Z.pos mc < C * 2 ^ (- ec) -> 0 < C < 2 ^ 53 ->
  atMost C (mul x (S754_finite false mc ec)).
Proof.
  intros Hx Hec Hc HC. destruct x as [s| | |s mx ex]; try contradiction.
  - exact I.
  - destruct Hx as [Hmx Hex].
    unfold mul. cbn [SFmul]. apply binary_round_aux_atMost; try lia.
    split; [lia|].
    replace (971 - (ex + ec)) with ((971 - ex) + - ec) by lia.
    rewrite Z.pow_add_r, Pos2Z.inj_mul by lia.
    assert (Hp : 0 < 2 ^ (971 - ex)) by (apply Z.pow_pos_nonneg; lia).
    assert (H1 : Z.pos mx * Z.pos mc <= Cx * 2 ^ (971 - ex) * Z.pos mc)
      by (apply Z.mul_le_mono_nonneg_r; lia).
    assert (H2 : Cx * Z.pos mc * 2 ^ (971 - ex) < C * 2 ^ (- ec) * 2 ^ (971 - ex))
      by (apply Z.mul_lt_mono_pos_r; assumption).
    eapply Z.le_lt_trans; [exact H1|].
    replace (Cx * 2 ^ (971 - ex) * Z.pos mc) with (Cx * Z.pos mc * 2 ^ (971 - ex)) by ring.
    replace (C * (2 ^ (971 - ex) * 2 ^ (- ec))) with (C * 2 ^ (- ec) * 2 ^ (971 - ex)) by ring.
    exact H2.
Qed.

(** A sum of two values that are not negative. *)
Lemma add_atMost Cx Cy x y :
  nonNegative x -> nonNegative y -> atMost Cx x -> atMost Cy y ->
  0 <= Cx -> 0 <= Cy -> Cx + Cy + 1 < 2 ^ 53 ->
  atMost (Cx + Cy + 1) (add x y).
Proof.
  intros Hnx Hny Hx Hy HCx HCy HC.
  destruct x as [[]|[]| |[] mx ex]; try contradiction;
    destruct y as [[]|[]| |[] my ey]; try contradiction.
  - exact I.
  - apply atMost_le with (C := Cy); [lia | exact Hy].
  - apply atMost_le with (C := Cx); [lia | exact Hx].
  - destruct Hx as [Hmx Hex], Hy as [Hmy Hey].
    unfold add. cbn [SFadd cond_Zopp]. set (ez := Z.min ex ey).
    destruct (@shl_align_value mx ex ez ltac:(lia)) as [Hvx _].
    destruct (@shl_align_value my ey ez ltac:(lia)) as [Hvy _].
    set (a := fst (shl_align mx ex ez)) in *.
    set (b := fst (shl_align my ey ez)) in *.
    change (Z.pos a + Z.pos b) with (Z.pos (a + b)). cbn [binary_normalize].
    apply binary_round_atMost; try lia.
    rewrite Pos2Z.inj_add, Hvx, Hvy.
    assert (Hpz : 0 < 2 ^ (971 - ez)) by (apply Z.pow_pos_nonneg; lia).
    assert (Z.pos mx * 2 ^ (ex - ez) <= Cx * 2 ^ (971 - ez)).
    { rewrite (@scale_split Cx ez ex) by lia. rewrite Z.mul_comm.
      apply Z.mul_le_mono_nonneg_l; [apply Z.pow_nonneg; lia | exact Hmx]. }
    assert (Z.pos my * 2 ^ (ey - ez) <= Cy * 2 ^ (971 - ez)).
    { rewrite (@scale_split Cy ez ey) by lia. rewrite Z.mul_comm.
      apply Z.mul_le_mono_nonneg_l; [apply Z.pow_nonneg; lia | exact Hmy]. }
    set (P := 2 ^ (971 - ez)) in *. lia.
Qed.

(** A decimal without a positive exponent, whose digits denote less than
    [C * 2^971]. *)
Lemma ofDecimal_atMost C m e :
  0 < C < 2 ^ 53 -> Z.of_N m < C * 2 ^ 971 -> e <= 0 ->
  atMost C (ofDecimal false m e).
Proof.
  intros HC Hm He. unfold ofDecimal. destruct m as [|p]; [exact I|].
  change (Z.of_N (N.pos p)) with (Z.pos p) in Hm.
  destruct e as [|k|k]; [| lia |].
  - rewrite Z.pow_0_r, Z.mul_1_r.
    apply binary_round_atMost; lia.
  - unfold SFdiv_core_binary.
    set (e' := Z.min _ _).
    assert (He' : e' <= 0) by (unfold e'; lia).
    set (m' := match (0 - 0 - e') with Z0 => _ | _ => _ end).
    assert (Hm' : m' = Z.pos p * 2 ^ (- e')).
    { unfold m'. destruct (0 - 0 - e') as [|s|s] eqn:Es; try lia.
      - replace (- e') with 0 by lia. cbn. lia.
      - rewrite Z.shiftl_mul_pow2 by lia. f_equal. f_equal. lia. }
    assert (Hpos : 0 < Z.pow_pos 10 k).
    { rewrite Z.pow_pos_fold. apply Z.pow_pos_nonneg; lia. }
    assert (Hp2 : 0 < 2 ^ (- e')) by (apply Z.pow_pos_nonneg; lia).
    pose proof (Z_div_mod m' (Z.pow_pos 10 k)) as Hdiv.
    destruct (Z.div_eucl m' (Z.pow_pos 10 k)) as [q r].
    destruct Hdiv as [Hq Hr]; [lia|].
    assert (Hm0 : 0 <= m') by (rewrite Hm'; lia).
    assert (Hq0 : 0 <= q) by nia.
    assert (Hqm : q <= m') by nia.
    apply binary_round_aux_atMost; try lia.
    split; [exact Hq0|].
    eapply Z.le_lt_trans; [exact Hqm|]. rewrite Hm'.
    replace (971 - e') with (971 + - e') by lia.
    rewrite Z.pow_add_r, Z.mul_assoc by lia.
    apply Z.mul_lt_mono_pos_r; [exact Hp2 | exact Hm].
Qed.

End Range.

(** The value of a run of digits is below ten to the power of its
    length. *)
Lemma digitsValue_acc ds : forall acc,
  fold_left (fun acc c => (10 * acc + (c - ch "0"))%N) ds acc
  = (acc * 10 ^ N.of_nat (List.length ds) + digitsValue ds)%N.
Proof.
  unfold digitsValue.
  induction ds as [|c ds IH]; intros acc; cbn [fold_left List.length].
  - cbn. lia.
  - rewrite IH, (IH (10 * 0 + (c - ch "0"))%N).
    rewrite Nat2N.inj_succ, N.pow_succ_r by lia. lia.
Qed.

Lemma digitsValue_bound ds :
  digits ds -> (digitsValue ds < 10 ^ N.of_nat (List.length ds))%N.
Proof.
  induction 1 as [|c ds Hc _ IH].
  - cbn. lia.
  - unfold digitsValue. cbn [fold_left List.length].
    rewrite digitsValue_acc, Nat2N.inj_succ, N.pow_succ_r by lia.
    apply isDigit_range in Hc. change (ch "0") with 48%N.
    unfold codeunit in *.
    assert (((10 * 0 + (c - 48)) * 10 ^ N.of_nat (List.length ds)
             <= 9 * 10 ^ N.of_nat (List.length ds))%N)
      by (apply N.mul_le_mono_r; lia).
    fold (digitsValue ds).
    set (P := (10 ^ N.of_nat (List.length ds))%N) in *.
    set (X := ((10 * 0 + (c - 48)) * P)%N) in *. lia.
Qed.

(** Up to 308 digits denote less than the largest finite Number. *)
Lemma digitsValue_in_range ds :
  digits ds -> List.length ds <= 308 ->
  (Z.of_N (digitsValue ds) < (2 ^ 53 - 1) * 2 ^ 971)%Z.
Proof.
  intros Hd Hlen. pose proof (digitsValue_bound Hd) as Hb.
  assert (Hpow : (10 ^ N.of_nat (List.length ds) <= 10 ^ 308)%N)
    by (apply N.pow_le_mono_r; lia).
  assert (H : (digitsValue ds < (2 ^ 53 - 1) * 2 ^ 971)%N).
  { eapply N.lt_le_trans; [exact Hb|]. eapply N.le_trans; [exact Hpow|].
    apply N.lt_le_incl. vm_compute. reflexivity. }
  apply N2Z.inj_lt in H. exact H.
Qed.

(** [parseFloat] on a run of digits, and on two runs around a point. *)
Lemma parseFloat_digits ds :
  ds <> [] -> digits ds -> parseFloat ds = ofDecimal false (digitsValue ds) 0.
Proof.
  intros Hne Hd. destruct (digits_cons Hne Hd) as (c & s & -> & Hc).
  unfold parseFloat, trimStart. cbn [dropWhile].
  rewrite (digit_not_space c Hc).
  rewrite !(@digit_neq c _ Hc) by reflexivity.
  unfold parseUnsigned.
  replace (startsWith (lit "Infinity") (c :: s)) with false.
  2:{ cbn [lit list_ascii_of_string List.map startsWith].
      rewrite N.eqb_sym, (@digit_neq c "I" Hc); reflexivity. }
  rewrite <- (app_nil_r (c :: s)).
  rewrite takeWhile_app, dropWhile_app by (assumption || exact I).
  cbn [isEmpty andb app exponentPart List.length]. now rewrite !app_nil_r.
Qed.

Lemma parseFloat_point d1 d2 :
  d1 <> [] -> digits d1 -> digits d2 ->
  parseFloat (d1 ++ ch "." :: d2)
  = ofDecimal false (digitsValue (d1 ++ d2)) (- Z.of_nat (List.length d2)).
Proof.
  intros Hne H1 H2. destruct (digits_cons Hne H1) as (c & s & -> & Hc).
  unfold parseFloat, trimStart. cbn [dropWhile app].
  rewrite (digit_not_space c Hc).
  rewrite !(@digit_neq c _ Hc) by reflexivity.
  unfold parseUnsigned.
  replace (startsWith (lit "Infinity") (c :: s ++ ch "." :: d2)) with false.
  2:{ cbn [lit list_ascii_of_string List.map startsWith].
      rewrite N.eqb_sym, (@digit_neq c "I" Hc); reflexivity. }
  change (c :: s ++ ch "." :: d2) with ((c :: s) ++ ch "." :: d2).
  rewrite takeWhile_app, dropWhile_app by (assumption || reflexivity).
  rewrite N.eqb_refl.
  assert (Ht : takeWhile isDigit d2 = d2).
  { rewrite <- (app_nil_r d2) at 1. apply takeWhile_app; [assumption | exact I]. }
  assert (Hd : dropWhile isDigit d2 = []).
  { rewrite <- (app_nil_r d2). apply dropWhile_app; [assumption | exact I]. }
  rewrite Ht, Hd. cbn [isEmpty andb app exponentPart]. reflexivity.
Qed.

(** ** Values out of range *)

(** C4, as stated, fails: the digits of [hugeMetres] are past the binary64
    range, [parseFloat] gives plus infinity, [isNaN] lets it through and it
    is pushed; the feet pattern, which matches the same text, is not
    tried. *)
Lemma C4_counterexample :
  pushes hugeMetres (S754_infinity false) /\
  ~ finite (S754_infinity false) /\
  str_match hugeMetres FEET_REGEX 2
    = Some [Some (lit "5 ft 3 in"); Some (lit "5"); Some (lit "3")] /\
  ~ (forall value v, pushes value v -> finite v).
Proof.
  assert (Hp : pushes hugeMetres (S754_infinity false)).
  { intros columns. vm_compute. reflexivity. }
  split; [exact Hp|]. split; [intros []|]. split; [vm_compute; reflexivity|].
  intros H. exact (H _ _ Hp).
Qed.

Lemma pushValue_values columns v columns' :
  pushValue columns v = Return columns' ->
  exists c rest,
    columns = c :: rest /\
    columns' = {| header := header c; values := values c ++ [v] |} :: rest.
Proof.
  destruct columns as [|c rest]; cbn; [discriminate|].
  intros [= <-]. eauto.
Qed.

Lemma scanned_nonNegative table : Forall nonNegative (scanned table).
Proof.
  unfold scanned. apply Forall_flat_map. apply Forall_forall. intros i _.
  unfold rowEmitted.
  destruct (nth_error table i) as [[|markCell cells]|]; try constructor.
  destruct (emitted (cellValue markCell)) as [v|] eqn:E; [|constructor].
  apply emitted_pushes in E.
  destruct (handleValue_cases (cellValue markCell)) as [Hs|(v' & Hnn & Hp)].
  - now apply pushes_not_skips in E.
  - rewrite (pushes_unique E Hp). repeat constructor. exact Hnn.
Qed.

Lemma columnsOf_nonNegative tables :
  Forall (fun c => Forall nonNegative (values c)) (flat_map columnsOf tables).
Proof.
  apply Forall_flat_map. apply Forall_forall. intros t _. unfold columnsOf.
  destruct (0 <? _); repeat constructor. apply scanned_nonNegative.
Qed.

Lemma getColumns_inv page columns :
  getColumns page = Return columns ->
  exists tables,
    page = Document tables /\ tables <> [] /\ columns = flat_map columnsOf tables.
Proof.
  intros H. destruct page as [e| |[|t tables]]; try discriminate.
  exists (t :: tables). rewrite getColumns_document in H by discriminate.
  injection H as <-. repeat split. discriminate.
Qed.

(** ** Values within the range *)

Lemma digitCount_app a b : digitCount (a ++ b) = digitCount a + digitCount b.
Proof. unfold digitCount. now rewrite filter_app, length_app. Qed.

Lemma digitCount_digits ds : digits ds -> digitCount ds = List.length ds.
Proof.
  unfold digitCount. induction 1 as [|c ds Hc _ IH]; cbn [filter]; [reflexivity|].
  rewrite Hc. cbn [List.length]. now rewrite IH.
Qed.

(** The metres branch: with at most 308 digits in the text the captured
    text converts to a finite Number. *)
Lemma metres_value_finite value m :
  str_match value METRES_REGEX 1 = Some m -> digitCount value <= 308 ->
  exists g,
    group 1 m = Some g /\
    atMost (2 ^ 53 - 1) (parseFloat (replace (lit ",") (lit ".") g)).
Proof.
  intros Hm Hlen.
  destruct (metres_match_shape _ Hm) as [pre int sep frac ws post Hne Hint Hsep Hfrac Hws].
  exists (int ++ sep ++ frac). split; [reflexivity|].
  rewrite !digitCount_app in Hlen.
  rewrite (digitCount_digits Hint), (digitCount_digits Hfrac) in Hlen.
  assert (Hall : digits (int ++ frac)) by (apply Forall_app; auto).
  assert (Hne' : int ++ frac <> []) by (destruct int; [congruence | discriminate]).
  assert (Hv : (Z.of_N (digitsValue (int ++ frac)) < (2 ^ 53 - 1) * 2 ^ 971)%Z).
  { apply digitsValue_in_range; [exact Hall|]. rewrite length_app. lia. }
  assert (Hpoint : atMost (2 ^ 53 - 1) (parseFloat (int ++ ch "." :: frac))).
  { rewrite parseFloat_point by assumption.
    apply ofDecimal_atMost; [lia | exact Hv | lia]. }
  destruct Hsep as [-> | [-> | ->]].
  - cbn [app].
    assert (Hr : replace (lit ",") (lit ".") (int ++ frac) = int ++ frac).
    { rewrite <- (app_nil_r (int ++ frac)) at 1.
      rewrite replace_digits by exact Hall. rewrite replace_nil. apply app_nil_r. }
    rewrite Hr, parseFloat_digits by assumption.
    apply ofDecimal_atMost; [lia | exact Hv | lia].
  - change (int ++ [ch "."] ++ frac) with (int ++ ch "." :: frac).
    rewrite replace_decimal by auto. exact Hpoint.
  - change (int ++ [ch ","] ++ frac) with (int ++ ch "," :: frac).
    rewrite replace_decimal by auto. exact Hpoint.
Qed.

(** A run of at most 308 digits converts to a finite Number. *)
Lemma parseFloat_digits_atMost ds :
  ds <> [] -> digits ds -> List.length ds <= 308 ->
  atMost (2 ^ 53 - 1) (parseFloat ds) /\ nonNegative (parseFloat ds).
Proof.
  intros Hne Hd Hlen. rewrite parseFloat_digits by assumption. split.
  - apply ofDecimal_atMost; [lia | now apply digitsValue_in_range | lia].
  - apply ofDecimal_nonNegative.
Qed.

(** The feet branch: with at most 308 digits in the text the sum is a
    finite Number. *)
Lemma feet_value_finite value m :
  str_match value FEET_REGEX 2 = Some m -> digitCount value <= 308 ->
  atMost (2 ^ 52 + 2 ^ 48 + 1) (feetToMetres m).
Proof.
  intros Hf Hlen.
  destruct (feet_match_shape _ Hf) as [pre feet ws1 ws2 inches ws3 post Hne Hfeet _ _ Hin _].
  rewrite !digitCount_app in Hlen.
  rewrite (digitCount_digits Hfeet), (digitCount_digits Hin) in Hlen.
  destruct (@parseFloat_digits_atMost feet Hne Hfeet ltac:(lia)) as [Hfa Hfn].
  unfold feetToMetres. cbn [group nth parseFloatOf].
  set (inch := if truthy _ then _ else lit_0).
  assert (Hi : atMost (2 ^ 53 - 1) inch /\ nonNegative inch).
  { unfold inch. destruct inches as [|c s]; [split; exact I|].
    cbn [isEmpty truthy negb parseFloatOf].
    apply parseFloat_digits_atMost; [discriminate | exact Hin | lia]. }
  destruct Hi as [Hia Hinn].
  rewrite lit_0_3048_value, lit_0_0254_value.
  apply add_atMost; try lia.
  - apply SFmul_nonNegative. exact Hfn.
  - apply SFmul_nonNegative. exact Hinn.
  - apply mul_atMost with (Cx := (2 ^ 53 - 1)%Z); [exact Hfa | lia | | lia].
    vm_compute. reflexivity.
  - apply mul_atMost with (Cx := (2 ^ 53 - 1)%Z); [exact Hia | lia | | lia].
    vm_compute. reflexivity.
Qed.

Lemma pushes_finite value v :
  pushes value v -> digitCount value <= 308 -> finite v.
Proof.
  intros Hv Hlen.
  destruct (str_match value METRES_REGEX 1) as [m|] eqn:Hm.
  - destruct (handleValue_metres _ Hm) as (g & Hg & _ & Hp).
    destruct (metres_value_finite _ Hm Hlen) as (g' & Hg' & Ha).
    rewrite Hg in Hg'. injection Hg' as <-.
    rewrite (pushes_unique Hv Hp). exact (@atMost_finite _ _ Ha).
  - destruct (str_match value FEET_REGEX 2) as [m|] eqn:Hf.
    + destruct (handleValue_feet _ Hm Hf) as [_ Hp].
      rewrite (pushes_unique Hv Hp). exact (@atMost_finite _ _ (feet_value_finite _ Hf Hlen)).
    + exfalso. exact (pushes_not_skips Hv (handleValue_no_match _ Hm Hf)).
Qed.

Lemma scanned_finite table :
  Forall fewDigits (tl table) -> Forall finite (scanned table).
Proof.
  intros Hall. unfold scanned. apply Forall_flat_map. apply Forall_forall.
  intros i Hi. unfold loopIndices in Hi. apply in_seq in Hi.
  unfold rowEmitted.
  destruct (nth_error table i) as [[|markCell cells]|] eqn:E; try constructor.
  destruct (emitted (cellValue markCell)) as [v|] eqn:Ev; [|constructor].
  apply emitted_pushes in Ev.
  destruct table as [|r0 rest]; [destruct i; discriminate|].
  destruct i as [|j]; [lia|]. cbn [nth_error tl] in E, Hall.
  apply nth_error_In in E.
  pose proof (proj1 (Forall_forall _ _) Hall _ E) as Hfew. cbn [fewDigits] in Hfew.
  repeat constructor. exact (pushes_finite Ev Hfew).
Qed.

Lemma columnsOf_finite tables :
  Forall (fun table => Forall fewDigits (tl table)) tables ->
  Forall (fun c => Forall finite (values c)) (flat_map columnsOf tables).
Proof.
  intros Hall. apply Forall_flat_map.
  eapply Forall_impl; [|exact Hall]. intros t Ht. unfold columnsOf.
  destruct (0 <? _); repeat constructor. now apply scanned_finite.
Qed.

(** C4, amended. Every value pushed for a cell text is zero, a positive
    finite Number or plus infinity: never NaN, never negative; it is finite
    whenever the text holds at most 308 decimal digits. So it is for the
    columns [getColumns] returns: no value is NaN or negative, and all are
    finite when the first cell of every row after the first holds at most
    308 digits. With 309 digits the value can be past the range: for
    [justPastRange] plus infinity is pushed. When the metres pattern
    matches, the text of its group always converts, the guard on NaN lets
    it through, and that value is the one pushed, whatever the feet pattern
    would say. *)
Theorem C4_values_not_NaN_finite_in_range :
  (forall value v, pushes value v -> nonNegative v /\ isNaN v = false) /\
  (forall value v, pushes value v -> digitCount value <= 308 -> finite v) /\
  (forall page columns,
      getColumns page = Return columns ->
      Forall (fun c => Forall nonNegative (values c)) columns) /\
  (forall tables columns,
      getColumns (Document tables) = Return columns ->
      Forall (fun table => Forall fewDigits (tl table)) tables ->
      Forall (fun c => Forall finite (values c)) columns) /\
  (digitCount justPastRange = 309 /\ pushes justPastRange (S754_infinity false)) /\
  (forall value m,
      str_match value METRES_REGEX 1 = Some m ->
      exists g,
        group 1 m = Some g /\
        isNaN (parseFloat (replace (lit ",") (lit ".") g)) = false /\
        pushes value (parseFloat (replace (lit ",") (lit ".") g))).
Proof.
  split; [|split; [|split; [|split; [|split]]]].
  - intros value v Hv.
    destruct (handleValue_cases value) as [Hs|(v' & Hnn & Hp)].
    + now apply pushes_not_skips in Hv.
    + rewrite (pushes_unique Hv Hp).
      split; [exact Hnn | now apply nonNegative_not_NaN].
  - exact pushes_finite.
  - intros page columns H.
    apply getColumns_inv in H. destruct H as (tables & _ & _ & ->).
    apply columnsOf_nonNegative.
  - intros tables columns H Hfew.
    apply getColumns_inv in H. destruct H as (tables' & [= <-] & _ & ->).
    apply columnsOf_finite. exact Hfew.
  - split; [vm_compute; reflexivity|]. intros columns. vm_compute. reflexivity.
  - intros value m Hm.
    destruct (handleValue_metres _ Hm) as (g & Hg & Hnn & Hp).
    exists g. repeat split; auto. now apply nonNegative_not_NaN.
Qed.

Lemma C4_witness :
  (nonNegative (S754_infinity false) /\ isNaN (S754_infinity false) = false) /\
  finite (ofDecimal false 185 (-2)) /\
  Forall (fun c => Forall nonNegative (values c))
    [ {| header := lit "Height";
         values := [ofDecimal false 185 (-2);
                    add (mul (ofDecimal false 6 0) lit_0_3048)
                        (mul (ofDecimal false 1 0) lit_0_0254)] |} ] /\
  Forall (fun c => Forall finite (values c))
    [ {| header := lit "Height";
         values := [ofDecimal false 185 (-2);
                    add (mul (ofDecimal false 6 0) lit_0_3048)
                        (mul (ofDecimal false 1 0) lit_0_0254)] |} ] /\
  (exists g,
      group 1 [Some (lit "2 m"); Some (lit "2")] = Some g /\
      isNaN (parseFloat (replace (lit ",") (lit ".") g)) = false /\
      pushes (lit "2 m") (parseFloat (replace (lit ",") (lit ".") g))).
Proof.
  pose proof C4_values_not_NaN_finite_in_range as (H1 & H2 & H3 & H4 & _ & H6).
  split; [|split; [|split; [|split]]].
  - apply (H1 hugeMetres (S754_infinity false)).
    intros columns. vm_compute. reflexivity.
  - apply (H2 (lit "1,85 m")).
    + intros columns. vm_compute. reflexivity.
    + vm_compute. lia.
  - apply (H3 (Document [example1])). vm_compute. reflexivity.
  - apply (H4 [example1]); [vm_compute; reflexivity|].
    repeat constructor; vm_compute; lia.
  - apply (H6 (lit "2 m")). vm_compute. reflexivity.
Defined.

(** ** The rows the loop reads *)

Lemma rowEmitted_rowValue rows i :
  rowEmitted rows i =
  match nth_error rows i with
  | Some cells => rowValue cells
  | None => None
  end.
Proof.
  unfold rowEmitted. destruct (nth_error rows i) as [[|? ?]|]; reflexivity.
Qed.

Lemma nth_error_seq (A : Type) (l : list A) : forall d : list A,
  List.map (nth_error (d ++ l)) (seq (List.length d) (List.length l))
  = List.map Some l.
Proof.
  induction l as [|x l IH]; intros d; [reflexivity|].
  cbn [List.length seq List.map]. f_equal.
  - rewrite nth_error_app2, Nat.sub_diag by lia. reflexivity.
  - specialize (IH (d ++ [x])).
    rewrite <- app_assoc, length_app, Nat.add_1_r in IH. exact IH.
Qed.

(** Row 0 is never read: the scan is over the rows after it. *)
Lemma scanned_cons r0 rest :
  scanned (r0 :: rest) = flat_map (fun cells => optionList (rowValue cells)) rest.
Proof.
  unfold scanned, loopIndices. cbn [List.length].
  replace (S (List.length rest) - 1) with (List.length rest) by lia.
  rewrite !flat_map_concat_map. f_equal.
  transitivity
    (List.map (fun o : option Row =>
                 optionList match o with
                            | Some cells => rowValue cells
                            | None => None
                            end)
       (List.map (nth_error ([r0] ++ rest)) (seq (List.length [r0]) (List.length rest)))).
  - rewrite map_map. apply map_ext. intros i. now rewrite rowEmitted_rowValue.
  - rewrite nth_error_seq, map_map. reflexivity.
Qed.

Lemma scanned_nil : scanned [] = [].
Proof. reflexivity. Qed.

Lemma length_scanned table : List.length (scanned table) <= List.length table - 1.
Proof.
  destruct table as [|r0 rest]; [cbn; lia|].
  rewrite scanned_cons.
  assert (H : List.length (flat_map (fun cells => optionList (rowValue cells)) rest)
              <= List.length rest).
  { induction rest as [|cells rest IH]; [cbn; lia|].
    cbn [flat_map]. rewrite length_app. cbn [List.length].
    destruct (rowValue cells); cbn; lia. }
  cbn [List.length]. lia.
Qed.

Lemma extractColumnData_values table :
  extractColumnData table =
  Return match scanned table with
         | [] => []
         | _ :: _ => [ {| header := lit "Height"; values := scanned table |} ]
         end.
Proof.
  rewrite extractColumnData_scanned. now destruct (scanned table).
Qed.

Lemma extractColumnData_same_scan t t' :
  scanned t = scanned t' -> extractColumnData t = extractColumnData t'.
Proof.
  intros H. now rewrite !extractColumnData_scanned, H.
Qed.

Lemma silent_rowValue cells : silent cells -> rowValue cells = None.
Proof.
  intros [-> | (markCell & others & -> & Hs)]; [reflexivity|].
  cbn. now apply emitted_skips.
Qed.

(** C7, as stated, fails for the table without rows: nothing is scanned
    and nothing thrown, but the row count minus one is -1, which no length
    is at most. *)
Lemma C7_counterexample :
  extractColumnData [] = Return [] /\
  scanned [] = [] /\
  ~ (Z.of_nat (List.length (scanned []))
     <= Z.of_nat (List.length (@nil Row)) - 1)%Z /\
  ~ (forall table : Table,
        exists vs,
          (Z.of_nat (List.length vs) <= Z.of_nat (List.length table) - 1)%Z /\
          extractColumnData table =
          Return match vs with
                 | [] => []
                 | _ :: _ => [ {| header := lit "Height"; values := vs |} ]
                 end).
Proof.
  split; [reflexivity|]. split; [reflexivity|]. split.
  - cbn. lia.
  - intros H. destruct (H []) as (vs & Hlen & _). cbn in Hlen. lia.
Qed.

(** C7, amended. The scan does not read row 0; a table with fewer than two
    rows gives no column, and no error; a row after row 0 that has no cell,
    or whose first cell is skipped, can be taken out without changing the
    result; [extractColumnData] never throws, and the values it returns are
    at most as many as the rows minus one when the table has a row, and
    none when it has no row: at most the larger of 0 and the row count
    minus one, as integers. *)
Theorem C7_row_scan :
  (forall r0 r0' rest,
      extractColumnData (r0 :: rest) = extractColumnData (r0' :: rest)) /\
  (forall table,
      List.length table < 2 -> extractColumnData table = Return []) /\
  (forall r0 before cells after,
      silent cells ->
      extractColumnData (r0 :: before ++ cells :: after)
      = extractColumnData (r0 :: before ++ after)) /\
  (forall table,
      exists vs,
        (Z.of_nat (List.length vs)
         <= Z.max 0 (Z.of_nat (List.length table) - 1))%Z /\
        (table <> [] ->
         (Z.of_nat (List.length vs) <= Z.of_nat (List.length table) - 1)%Z) /\
        (table = [] -> vs = []) /\
        extractColumnData table =
        Return match vs with
               | [] => []
               | _ :: _ => [ {| header := lit "Height"; values := vs |} ]
               end).
Proof.
  split; [|split; [|split]].
  - intros r0 r0' rest. apply extractColumnData_same_scan.
    now rewrite !scanned_cons.
  - intros table Hlen. rewrite extractColumnData_values.
    destruct table as [|r0 [|r1 rest]]; [reflexivity | reflexivity |].
    cbn in Hlen. lia.
  - intros r0 before cells after Hs. apply extractColumnData_same_scan.
    rewrite !scanned_cons, !flat_map_app. cbn [flat_map].
    now rewrite (silent_rowValue Hs).
  - intros table. exists (scanned table).
    pose proof (length_scanned table) as Hlen.
    split; [lia|]. split; [|split].
    + intros Hne. destruct table as [|r0 rest]; [congruence|].
      cbn [List.length] in *. lia.
    + intros ->. reflexivity.
    + apply extractColumnData_values.
Qed.

Lemma C7_witness :
  extractColumnData [[cell "Header"]] = Return [] /\
  extractColumnData ([cell "Header"] :: [[cell "1.85 m"]] ++ [] :: [[cell "2 m"]])
  = extractColumnData ([cell "Header"] :: [[cell "1.85 m"]] ++ [[cell "2 m"]]).
Proof.
  split.
  - apply (proj1 (proj2 C7_row_scan)). cbn. lia.
  - apply (proj1 (proj2 (proj2 C7_row_scan))). left. reflexivity.
Defined.

(** ** Columns and the order of their values *)

Lemma rowEmitted_pushesAt table i v :
  rowEmitted table i = Some v <-> pushesAt table i v.
Proof.
  unfold rowEmitted, pushesAt. split.
  - destruct (nth_error table i) as [[|markCell others]|]; try discriminate.
    intros H. apply emitted_pushes in H. eauto.
  - intros (markCell & others & -> & H). now apply emitted_pushes.
Qed.

Lemma seq_sorted len : forall start, StronglySorted lt (seq start len).
Proof.
  induction len as [|len IH]; intros start; cbn; constructor; auto.
  apply Forall_forall. intros i Hi. apply in_seq in Hi. lia.
Qed.

Lemma picked_sorted (g : nat -> option number) l :
  StronglySorted lt l ->
  exists idxs,
    StronglySorted lt idxs /\
    incl idxs l /\
    Forall2 (fun i v => g i = Some v) idxs (flat_map (fun i => optionList (g i)) l) /\
    forall i v, In i l -> g i = Some v -> In i idxs.
Proof.
  induction 1 as [|a l Hs IH Ha].
  - exists []. repeat split; auto using incl_nil_l; constructor.
  - destruct IH as (idxs & Hsorted & Hincl & Hvals & Hall).
    cbn [flat_map]. destruct (g a) as [v|] eqn:Ea.
    + exists (a :: idxs). repeat split.
      * constructor; auto. rewrite Forall_forall in *. auto.
      * intros i [<-|Hi]; [now left | right; auto].
      * constructor; auto.
      * intros i w [<-|Hi] Hg; [now left | right; eauto].
    + exists idxs. repeat split; auto.
      * now apply incl_tl.
      * intros i w [<-|Hi] Hg; [congruence | eauto].
Qed.

Lemma scanned_inRowOrder table : inRowOrder table (scanned table).
Proof.
  destruct (picked_sorted (rowEmitted table)
              (seq_sorted (List.length table - 1) 1))
    as (idxs & Hsorted & Hincl & Hvals & Hall).
  exists idxs. repeat split; auto.
  - apply Forall_forall. intros i Hi. apply Hincl, in_seq in Hi. lia.
  - eapply Forall2_impl; [|exact Hvals]. cbv beta.
    intros i v H. now apply rowEmitted_pushesAt.
  - intros i v Hi Hp. apply (Hall i v).
    + destruct Hp as (markCell & others & Hn & _).
      assert (i < List.length table) by (apply nth_error_Some; congruence).
      apply in_seq. lia.
    + now apply rowEmitted_pushesAt.
Qed.

Lemma collects_columnsOf tables : collects tables (flat_map columnsOf tables).
Proof.
  induction tables as [|t tables IH]; [constructor|].
  cbn [flat_map]. unfold columnsOf at 1.
  destruct (0 <? List.length (scanned t)) eqn:E.
  - cbn [app]. apply collects_one; auto.
    + rewrite extractColumnData_scanned, E. reflexivity.
    + cbn. apply Nat.ltb_lt in E. destruct (scanned t); [cbn in E; lia | discriminate].
    + apply scanned_inRowOrder.
  - cbn [app]. apply collects_none; auto.
    rewrite extractColumnData_scanned, E. reflexivity.
Qed.

Lemma collects_not_empty tables columns :
  collects tables columns -> Forall (fun c => values c <> []) columns.
Proof. induction 1; auto. Qed.

(** C6. What [getColumns] returns is made table by table, in the order of
    the tables: a table gives either no column or one column with at least
    one value, whose values are those of its rows in row order. So no
    returned column is empty. *)
Theorem C6_no_empty_column page columns :
  getColumns page = Return columns ->
  Forall (fun c => values c <> []) columns /\
  exists tables, page = Document tables /\ collects tables columns.
Proof.
  intros H. apply getColumns_inv in H. destruct H as (tables & -> & _ & ->).
  pose proof (collects_columnsOf tables) as Hc.
  split; [eapply collects_not_empty; eauto | eauto].
Qed.

Lemma C6_witness :
  Forall (fun c => values c <> [])
    [ {| header := lit "Height";
         values := [ofDecimal false 185 (-2);
                    add (mul (ofDecimal false 6 0) lit_0_3048)
                        (mul (ofDecimal false 1 0) lit_0_0254)] |} ] /\
  exists tables,
    Document [[[cell "Header"]; [cell "n/a"]]; example1] = Document tables /\
    collects tables
      [ {| header := lit "Height";
           values := [ofDecimal false 185 (-2);
                      add (mul (ofDecimal false 6 0) lit_0_3048)
                          (mul (ofDecimal false 1 0) lit_0_0254)] |} ].
Proof.
  apply (@C6_no_empty_column (Document [[[cell "Header"]; [cell "n/a"]]; example1])).
  vm_compute. reflexivity.
Defined.

(** ** Any [m] after digits *)

Lemma dropWhile_app_head p (pre mid : jsstring) :
  headNot p mid -> dropWhile p (pre ++ mid) = dropWhile p pre ++ mid.
Proof.
  intros Hm. induction pre as [|c pre IH]; cbn [app dropWhile].
  - destruct mid as [|c mid]; [reflexivity|]. cbn in *. now rewrite Hm.
  - destruct (p c); [exact IH | reflexivity].
Qed.

Lemma dropWhile_Forall p (P : codeunit -> Prop) (s : jsstring) :
  Forall P s -> Forall P (dropWhile p s).
Proof.
  induction 1 as [|c s Hc Hs IH]; cbn; [constructor|].
  destruct (p c); [exact IH | now constructor].
Qed.

Lemma trimEnd_app_last (a : jsstring) c post :
  isWhiteSpace c = false -> trimEnd (a ++ c :: post) = a ++ c :: trimEnd post.
Proof.
  intros Hc. unfold trimEnd.
  rewrite rev_app_distr. cbn [rev]. rewrite <- app_assoc.
  rewrite dropWhile_app_head by exact Hc.
  rewrite rev_app_distr. cbn [app]. cbn [rev].
  rewrite rev_involutive. list_assoc.
Qed.

(** [trim] stops at the digits on the left and at the [m] on the right. *)
Lemma trim_measure pre ds ws post :
  ds <> [] -> digits ds ->
  trim (pre ++ ds ++ ws ++ ch "m" :: post)
  = trimStart pre ++ ds ++ ws ++ ch "m" :: trimEnd post.
Proof.
  intros Hne Hds. destruct (digits_cons Hne Hds) as (c & s & -> & Hc).
  unfold trim, trimStart at 1. rewrite dropWhile_app_head.
  2:{ cbn. now apply digit_not_space. }
  fold (trimStart pre).
  replace (trimStart pre ++ (c :: s) ++ ws ++ ch "m" :: post)
    with ((trimStart pre ++ (c :: s) ++ ws) ++ ch "m" :: post) by list_assoc.
  rewrite trimEnd_app_last by reflexivity. list_assoc.
Qed.

Lemma cellValue_text t : cellValue {| textContent := Some t |} = trim t.
Proof.
  unfold cellValue. cbn [textContent]. now destruct (trim t).
Qed.

Lemma replace_only_digits ds :
  digits ds -> replace (lit ",") (lit ".") ds = ds.
Proof.
  intros Hds. rewrite <- (app_nil_r ds) at 1.
  rewrite replace_digits by assumption. now rewrite replace_nil, app_nil_r.
Qed.

Lemma pushes_any_m pre ds ws post :
  ds <> [] -> digits ds -> spaces ws ->
  exists m g,
    str_match (pre ++ ds ++ ws ++ ch "m" :: post) METRES_REGEX 1 = Some m /\
    group 1 m = Some g /\
    pushes (pre ++ ds ++ ws ++ ch "m" :: post)
      (parseFloat (replace (lit ",") (lit ".") g)).
Proof.
  intros Hne Hds Hws.
  destruct (str_match (pre ++ ds ++ ws ++ ch "m" :: post) METRES_REGEX 1)
    as [m|] eqn:Hm.
  - destruct (handleValue_metres _ Hm) as (g & Hg & _ & Hp). eauto.
  - exfalso. revert Hm. unfold str_match. apply exec_app_some.
    rewrite (exec_here _ _ _ (metres_here_plain post Hne Hds Hws)). discriminate.
Qed.

Lemma pushes_first_m pre ds ws post :
  Forall (fun c => isDigit c = false) pre ->
  ds <> [] -> digits ds -> spaces ws ->
  str_match (pre ++ ds ++ ws ++ ch "m" :: post) METRES_REGEX 1
    = Some [Some (ds ++ ws ++ [ch "m"]); Some ds] /\
  pushes (pre ++ ds ++ ws ++ ch "m" :: post) (parseFloat ds).
Proof.
  intros Hpre Hne Hds Hws.
  assert (Hm : str_match (pre ++ ds ++ ws ++ ch "m" :: post) METRES_REGEX 1
               = Some [Some (ds ++ ws ++ [ch "m"]); Some ds]).
  { unfold str_match.
    rewrite (exec_skip_prefix _ _ _ metres_here_not_digit Hpre).
    apply exec_here. now apply metres_here_plain. }
  split; [exact Hm|].
  destruct (handleValue_metres _ Hm) as (g & Hg & _ & Hp).
  cbn [group nth] in Hg. injection Hg as <-.
  now rewrite replace_only_digits in Hp.
Qed.

(** [exec] goes past the positions where an attempt fails. *)
Lemma exec_skip_failing r n pre x :
  (forall pre1 c pre2,
      pre = pre1 ++ c :: pre2 -> matchHere r n (c :: pre2 ++ x) = None) ->
  exec r n (pre ++ x) = exec r n x.
Proof.
  induction pre as [|c pre IH]; intros H; [reflexivity|].
  cbn [app]. rewrite exec_skip by (apply (H [] c pre); reflexivity).
  apply IH. intros pre1 c' pre2 ->. apply (H (c :: pre1) c' pre2). reflexivity.
Qed.

Lemma pushes_leftmost_m pre ds ws post :
  (forall pre1 c pre2,
      pre = pre1 ++ c :: pre2 ->
      matchHere METRES_REGEX 1 (c :: pre2 ++ ds ++ ws ++ ch "m" :: post) = None) ->
  ds <> [] -> digits ds -> spaces ws ->
  str_match (pre ++ ds ++ ws ++ ch "m" :: post) METRES_REGEX 1
    = Some [Some (ds ++ ws ++ [ch "m"]); Some ds] /\
  pushes (pre ++ ds ++ ws ++ ch "m" :: post) (parseFloat ds).
Proof.
  intros Hpre Hne Hds Hws.
  assert (Hm : str_match (pre ++ ds ++ ws ++ ch "m" :: post) METRES_REGEX 1
               = Some [Some (ds ++ ws ++ [ch "m"]); Some ds]).
  { unfold str_match. rewrite (@exec_skip_failing _ _ pre _ Hpre).
    apply exec_here. now apply metres_here_plain. }
  split; [exact Hm|].
  destruct (handleValue_metres _ Hm) as (g & Hg & _ & Hp).
  cbn [group nth] in Hg. injection Hg as <-.
  now rewrite replace_only_digits in Hp.
Qed.

(** C10, as stated, fails. In "26.2 miles" the digit 2 is followed by white
    space and [m], but the group of the match is "26.2" and 26.2 is pushed,
    not 2. In "2 m 100 miles" the digits 100 are followed by white space
    and [m], but the match is the earlier "2 m" and 2 is pushed, not
    100. *)
Lemma C10_counterexample :
  str_match (lit "26.2 miles") METRES_REGEX 1
    = Some [Some (lit "26.2 m"); Some (lit "26.2")] /\
  pushes (lit "26.2 miles") (ofDecimal false 262 (-1)) /\
  ~ pushes (lit "26.2 miles") (parseFloat (lit "2")) /\
  str_match (lit "2 m 100 miles") METRES_REGEX 1
    = Some [Some (lit "2 m"); Some (lit "2")] /\
  pushes (lit "2 m 100 miles") (ofDecimal false 2 0) /\
  ~ pushes (lit "2 m 100 miles") (parseFloat (lit "100")) /\
  ~ (forall pre ds ws post,
        ds <> [] -> digits ds -> spaces ws ->
        pushes (cellValue {| textContent := Some (pre ++ ds ++ ws ++ ch "m" :: post) |})
          (parseFloat ds)).
Proof.
  assert (H1 : pushes (lit "26.2 miles") (ofDecimal false 262 (-1)))
    by (intros columns; vm_compute; reflexivity).
  assert (H2 : pushes (lit "2 m 100 miles") (ofDecimal false 2 0))
    by (intros columns; vm_compute; reflexivity).
  assert (N1 : ~ pushes (lit "26.2 miles") (parseFloat (lit "2"))).
  { intros H. pose proof (pushes_unique H H1) as E. vm_compute in E. discriminate. }
  assert (N2 : ~ pushes (lit "2 m 100 miles") (parseFloat (lit "100"))).
  { intros H. pose proof (pushes_unique H H2) as E. vm_compute in E. discriminate. }
  split; [vm_compute; reflexivity|]. split; [exact H1|]. split; [exact N1|].
  split; [vm_compute; reflexivity|]. split; [exact H2|]. split; [exact N2|].
  intros H. apply N1.
  apply (H (lit "26.") (lit "2") (lit " ") (lit "iles")).
  - discriminate.
  - repeat constructor.
  - repeat constructor.
Qed.

(** C10, amended. Take any cell text in which digits are followed by white
    space (possibly none) and the letter [m], whatever comes before and
    after. The metres pattern matches the trimmed text and the value of
    the group of its match, the leftmost one, is pushed. When no digit
    comes before, the group is exactly those digits and their value is
    pushed; so it is, for a text as [handleValue] receives it, whenever
    the pattern matches at no position before those digits. So a first
    cell "100 miles" gives a Height column with the Number 100; "5 min"
    and "3mm" give 5 and 3; "room 12: 100 miles" gives 100. *)
Theorem C10_unit_marker_is_any_m :
  (forall pre ds ws post,
      ds <> [] -> digits ds -> spaces ws ->
      let value :=
        cellValue {| textContent := Some (pre ++ ds ++ ws ++ ch "m" :: post) |} in
      (exists m g,
          str_match value METRES_REGEX 1 = Some m /\
          group 1 m = Some g /\
          pushes value (parseFloat (replace (lit ",") (lit ".") g))) /\
      (Forall (fun c => isDigit c = false) pre ->
       str_match value METRES_REGEX 1 = Some [Some (ds ++ ws ++ [ch "m"]); Some ds] /\
       pushes value (parseFloat ds))) /\
  (forall pre ds ws post,
      ds <> [] -> digits ds -> spaces ws ->
      (forall pre1 c pre2,
          pre = pre1 ++ c :: pre2 ->
          matchHere METRES_REGEX 1 (c :: pre2 ++ ds ++ ws ++ ch "m" :: post) = None) ->
      str_match (pre ++ ds ++ ws ++ ch "m" :: post) METRES_REGEX 1
        = Some [Some (ds ++ ws ++ [ch "m"]); Some ds] /\
      pushes (pre ++ ds ++ ws ++ ch "m" :: post) (parseFloat ds)) /\
  extractColumnData [[cell "Header"]; [cell "100 miles"]]
    = Return [ {| header := lit "Height"; values := [ofDecimal false 100 0] |} ] /\
  pushes (lit "5 min") (ofDecimal false 5 0) /\
  pushes (lit "3mm") (ofDecimal false 3 0) /\
  pushes (lit "room 12: 100 miles") (ofDecimal false 100 0).
Proof.
  split; [|split; [|split; [|split; [|split]]]].
  - intros pre ds ws post Hne Hds Hws value. subst value.
    rewrite cellValue_text, trim_measure by assumption. split.
    + now apply pushes_any_m.
    + intros Hpre. apply pushes_first_m; auto.
      now apply dropWhile_Forall.
  - intros pre ds ws post Hne Hds Hws Hpre. now apply pushes_leftmost_m.
  - vm_compute. reflexivity.
  - intros columns. vm_compute. reflexivity.
  - intros columns. vm_compute. reflexivity.
  - intros columns. vm_compute. reflexivity.
Qed.

Lemma C10_witness :
  (exists m g,
      str_match (cellValue milesCell) METRES_REGEX 1 = Some m /\
      group 1 m = Some g /\
      pushes (cellValue milesCell) (parseFloat (replace (lit ",") (lit ".") g))) /\
  str_match (cellValue milesCell) METRES_REGEX 1
    = Some [Some (lit "100 m"); Some (lit "100")] /\
  pushes (cellValue milesCell) (parseFloat (lit "100")) /\
  str_match (lit "12: 100 miles") METRES_REGEX 1
    = Some [Some (lit "100 m"); Some (lit "100")] /\
  pushes (lit "12: 100 miles") (parseFloat (lit "100")).
Proof.
  destruct (proj1 C10_unit_marker_is_any_m
              (lit "  about ") (lit "100") (lit " ") (lit "iles "))
    as [H1 H2].
  - discriminate.
  - repeat constructor.
  - repeat constructor.
  - split; [exact H1|]. split; [apply H2; repeat constructor|].
    split; [apply H2; repeat constructor|].
    apply (proj1 (proj2 C10_unit_marker_is_any_m)
             (lit "12: ") (lit "100") (lit " ") (lit "iles")).
    + discriminate.
    + repeat constructor.
    + repeat constructor.
    + intros pre1 c pre2 H.
      destruct pre1 as [|c1 pre1]; [injection H as <- <-; vm_compute; reflexivity|].
      destruct pre1 as [|c2 pre1]; [injection H as _ <- <-; vm_compute; reflexivity|].
      destruct pre1 as [|c3 pre1]; [injection H as _ _ <- <-; vm_compute; reflexivity|].
      destruct pre1 as [|c4 pre1]; [injection H as _ _ _ <- <-; vm_compute; reflexivity|].
      exfalso. injection H as _ _ _ _ H. destruct pre1; discriminate.
Defined.

(** ** Feet without inches *)

Lemma rmatch_char_same c x cap k : rmatch (Char c) (c :: x) cap k = k x cap.
Proof. rewrite rmatch_char. now rewrite N.eqb_refl. Qed.

Lemma opt_group_plus_fail i (p : codeunit -> bool) rest cap k :
  headNot p rest ->
  rmatch (Opt (Group i (Plus (Class p)))) rest cap k = k rest cap.
Proof.
  intros Hr.
  change (rmatch (Opt (Group i (Plus (Class p)))) rest cap k)
    with (repeatMatcher (rmatch (Group i (Plus (Class p)))) [i]
            (Nat.min 1 (List.length rest)) rest cap k).
  destruct rest as [|c r]; [reflexivity|].
  cbn [List.length Nat.min repeatMatcher].
  rewrite rmatch_group, plus_class_fail by exact Hr. reflexivity.
Qed.

(** Digits, [ft], [in], with white space between: group 2 is undefined. *)
Lemma feet_here_no_inches f ws1 ws2 post :
  f <> [] -> digits f -> spaces ws1 -> spaces ws2 ->
  matchHere FEET_REGEX 2
    (f ++ ws1 ++ ch "f" :: ch "t" :: ws2 ++ ch "i" :: ch "n" :: post)
  = Some [Some (f ++ ws1 ++ ch "f" :: ch "t" :: ws2 ++ [ch "i"; ch "n"]);
          Some f; None].
Proof.
  intros Hne Hf Hws1 Hws2. unfold matchHere, FEET_REGEX.
  rewrite rmatch_seq, rmatch_group.
  apply plus_class_greedy; auto.
  { destruct ws1 as [|c ws1]; [reflexivity|]. inversion Hws1; subst. cbn.
    destruct (isDigit c) eqn:E; [|reflexivity].
    apply digit_not_space in E. congruence. }
  rewrite rmatch_seq.
  apply star_class_greedy; [exact Hws1 | reflexivity |].
  rewrite rmatch_seq, rmatch_char_same.
  rewrite rmatch_seq, rmatch_char_same.
  rewrite rmatch_seq.
  apply star_class_greedy; [exact Hws2 | reflexivity |].
  rewrite rmatch_seq, opt_group_plus_fail by reflexivity.
  rewrite rmatch_seq, star_class_skip by reflexivity.
  rewrite rmatch_seq, rmatch_char_same, rmatch_char_same.
  rewrite firstn_app_length.
  replace (f ++ ws1 ++ ch "f" :: ch "t" :: ws2 ++ ch "i" :: ch "n" :: post)
    with (f ++ (ws1 ++ ch "f" :: ch "t" :: ws2 ++ [ch "i"; ch "n"]) ++ post)
    by list_assoc.
  rewrite firstn_app_length3. reflexivity.
Qed.

Lemma mul_zero_0_0254 : mul lit_0 lit_0_0254 = S754_zero false.
Proof. rewrite lit_0_0254_value. reflexivity. Qed.

Lemma add_zero_r x : nonNegative x -> add x (S754_zero false) = x.
Proof. destruct x as [[]|[]| |[] m e]; cbn; intros H; try contradiction; reflexivity. Qed.

Lemma mul_0_3048_nonNegative x : nonNegative x -> nonNegative (mul x lit_0_3048).
Proof.
  intros H. rewrite lit_0_3048_value. now apply SFmul_nonNegative.
Qed.

Lemma pushes_feet_no_inches f ws1 ws2 :
  f <> [] -> digits f -> spaces ws1 -> spaces ws2 ->
  pushes (f ++ ws1 ++ lit "ft" ++ ws2 ++ lit "in") (mul (parseFloat f) lit_0_3048).
Proof.
  intros Hne Hf Hws1 Hws2.
  set (value := f ++ ws1 ++ lit "ft" ++ ws2 ++ lit "in").
  assert (Hm : str_match value METRES_REGEX 1 = None).
  { destruct (str_match value METRES_REGEX 1) eqn:E; [|reflexivity].
    apply metres_needs_m in E. exfalso. unfold value in E.
    change (f ++ ws1 ++ lit "ft" ++ ws2 ++ lit "in")
      with (f ++ ws1 ++ [ch "f"; ch "t"] ++ ws2 ++ [ch "i"; ch "n"]) in E.
    rewrite !in_app_iff in E. destruct E as [E|[E|[E|[E|E]]]].
    - revert E. now apply (@digits_without "m").
    - revert E. now apply (@spaces_without "m").
    - cbn in E. intuition discriminate.
    - revert E. now apply (@spaces_without "m").
    - cbn in E. intuition discriminate. }
  assert (Hft : str_match value FEET_REGEX 2
                = Some [Some value; Some f; None]).
  { apply exec_here. apply (@feet_here_no_inches f ws1 ws2 []); auto. }
  destruct (@handleValue_feet _ _ Hm Hft) as [_ Hp].
  unfold feetToMetres in Hp. cbn [group nth truthy parseFloatOf] in Hp.
  rewrite mul_zero_0_0254, add_zero_r in Hp; [exact Hp|].
  apply mul_0_3048_nonNegative.
  destruct (digits_cons Hne Hf) as (c & s & -> & Hc).
  now apply parseFloat_digit_first.
Qed.

(** C2, as stated, fails: the text "5 ft" has no "in", neither pattern
    matches it, nothing is pushed for it, and the two tables of the example
    give no column. *)
Lemma C2_counterexample :
  skips (lit "5 ft") /\
  (forall v, ~ pushes (lit "5 ft") v) /\
  getColumns (Document example3) = Return [].
Proof.
  assert (Hs : skips (lit "5 ft")).
  { intros columns. vm_compute. reflexivity. }
  split; [exact Hs|]. split.
  - intros v Hv. exact (pushes_not_skips Hv Hs).
  - vm_compute. reflexivity.
Qed.

(** C2, amended. With the marker written out and the inches left out, the
    text "f ft in" pushes the Number f * 0.3048 (the inches default to 0,
    and adding 0 * 0.0254 changes nothing). For two tables, the first
    without a match and the second with the one data row ["5 ft in"],
    [getColumns] returns exactly one column with the single value
    5 * 0.3048, within 1e-9 of 1.524. *)
Theorem C2_feet_with_marker_only :
  (forall f,
      f <> [] -> digits f ->
      pushes (f ++ lit " ft in") (mul (parseFloat f) lit_0_3048)) /\
  getColumns (Document example3_marker)
    = Return [ {| header := lit "Height";
                  values := [mul (ofDecimal false 5 0) lit_0_3048] |} ] /\
  within (mul (ofDecimal false 5 0) lit_0_3048) (1524 # 1000) (1 # 1000000000).
Proof.
  split; [|split].
  - intros f Hne Hf.
    apply (@pushes_feet_no_inches f (lit " ") (lit " ")); auto;
      repeat constructor.
  - vm_compute. reflexivity.
  - unfold within. vm_compute. discriminate.
Qed.

Lemma C2_witness :
  pushes (lit "5 ft in") (mul (parseFloat (lit "5")) lit_0_3048).
Proof.
  apply (proj1 C2_feet_with_marker_only (lit "5")).
  - discriminate.
  - repeat constructor.
Defined.

(** * Further properties of the extraction *)

Lemma heights_scanned table : heights table = scanned table.
Proof.
  unfold heights. rewrite extractColumnData_values.
  now destruct (scanned table).
Qed.

(** Rows after the header can be scanned in two parts: the values of
    [r0 :: a ++ b] are those of [r0 :: a] followed by those of [r0 :: b]. *)
Theorem heights_app r0 a b :
  heights (r0 :: a ++ b) = heights (r0 :: a) ++ heights (r0 :: b).
Proof.
  rewrite !heights_scanned, !scanned_cons. apply flat_map_app.
Qed.

Lemma rowValue_head cells cells' :
  hd_error cells = hd_error cells' -> rowValue cells = rowValue cells'.
Proof.
  destruct cells, cells'; cbn; try discriminate; [reflexivity|].
  now intros [= ->].
Qed.

Lemma scanned_same_heads t t' :
  Forall2 (fun cells cells' => hd_error cells = hd_error cells') t t' ->
  scanned t = scanned t'.
Proof.
  intros H. destruct H as [|r0 r0' rest rest' _ H]; [reflexivity|].
  rewrite !scanned_cons. induction H as [|c c' l l' Hc _ IH]; [reflexivity|].
  cbn [flat_map]. now rewrite (rowValue_head _ _ Hc), IH.
Qed.

(** Only the first cell of a row is read: two tables whose rows have the
    same first cell, row by row, give the same result. *)
Theorem extractColumnData_first_cell_only t t' :
  Forall2 (fun cells cells' => hd_error cells = hd_error cells') t t' ->
  extractColumnData t = extractColumnData t'.
Proof.
  intros H. apply extractColumnData_same_scan. now apply scanned_same_heads.
Qed.

Lemma extractColumnData_first_cell_only_witness :
  extractColumnData [[cell "Athlete"; cell "Mark"]; [cell "1.85 m"; cell "2.40 m"]]
  = extractColumnData [[cell "Athlete"]; [cell "1.85 m"; cell "x"; cell "9 ft 9 in"]].
Proof.
  apply extractColumnData_first_cell_only. repeat constructor.
Defined.

(** ** White space around the text of a cell *)

Lemma dropWhile_spaces ws s :
  spaces ws -> dropWhile isWhiteSpace (ws ++ s) = dropWhile isWhiteSpace s.
Proof.
  induction 1 as [|c ws Hc _ IH]; [reflexivity|]. cbn. now rewrite Hc.
Qed.

Lemma trimEnd_spaces s ws : spaces ws -> trimEnd (s ++ ws) = trimEnd s.
Proof.
  intros Hws. unfold trimEnd. rewrite rev_app_distr.
  rewrite dropWhile_spaces; [reflexivity|].
  unfold spaces. apply Forall_rev. exact Hws.
Qed.

Lemma trim_spaces ws t ws' :
  spaces ws -> spaces ws' -> trim (ws ++ t ++ ws') = trim t.
Proof.
  intros Hws Hws'. unfold trim, trimStart. rewrite dropWhile_spaces by assumption.
  induction t as [|c t IH]; cbn [app dropWhile].
  - rewrite <- (app_nil_r ws'), dropWhile_spaces by assumption. reflexivity.
  - destruct (isWhiteSpace c); [exact IH|].
    change (c :: t ++ ws') with ((c :: t) ++ ws'). now apply trimEnd_spaces.
Qed.

(** White space before and after the text of a cell never matters, and a
    cell without text content reads like an empty one. *)
Theorem cellValue_ignores_outer_space ws t ws' :
  spaces ws -> spaces ws' ->
  cellValue {| textContent := Some (ws ++ t ++ ws') |}
  = cellValue {| textContent := Some t |} /\
  cellValue {| textContent := None |} = cellValue {| textContent := Some ws |}.
Proof.
  intros Hws Hws'. split.
  - rewrite !cellValue_text. now apply trim_spaces.
  - rewrite cellValue_text.
    rewrite <- (app_nil_r ws). change (ws ++ []) with (ws ++ [] ++ []).
    rewrite trim_spaces by (assumption || constructor). reflexivity.
Qed.

Lemma cellValue_ignores_outer_space_witness :
  cellValue {| textContent := Some ([160; 10]%N ++ lit "1.85 m" ++ [9; 32]%N) |}
  = cellValue {| textContent := Some (lit "1.85 m") |} /\
  cellValue {| textContent := None |}
  = cellValue {| textContent := Some [160; 10]%N |}.
Proof.
  apply cellValue_ignores_outer_space; repeat constructor.
Defined.

(** ** Tables, columns and failures *)

Lemma columnsOf_header tables :
  Forall (fun c => header c = lit "Height") (flat_map columnsOf tables).
Proof.
  apply Forall_flat_map. apply Forall_forall. intros t _. unfold columnsOf.
  destruct (0 <? _); repeat constructor.
Qed.

Lemma length_columnsOf tables :
  List.length (flat_map columnsOf tables) <= List.length tables.
Proof.
  induction tables as [|t tables IH]; [cbn; lia|].
  cbn [flat_map]. rewrite length_app. unfold columnsOf at 1.
  destruct (0 <? _); cbn; lia.
Qed.

(** Every column [getColumns] returns is headed "Height", and there are at
    most as many columns as tables. *)
Theorem getColumns_headers_and_count page columns :
  getColumns page = Return columns ->
  Forall (fun c => header c = lit "Height") columns /\
  exists tables,
    page = Document tables /\ List.length columns <= List.length tables.
Proof.
  intros H. apply getColumns_inv in H. destruct H as (tables & -> & _ & ->).
  split; [apply columnsOf_header|].
  exists tables. split; [reflexivity | apply length_columnsOf].
Qed.

Lemma getColumns_headers_and_count_witness :
  Forall (fun c => header c = lit "Height")
    [ {| header := lit "Height";
         values := [ofDecimal false 185 (-2);
                    add (mul (ofDecimal false 6 0) lit_0_3048)
                        (mul (ofDecimal false 1 0) lit_0_0254)] |} ] /\
  exists tables,
    Document [[[cell "Header"]; [cell "n/a"]]; example1] = Document tables /\
    1 <= List.length tables.
Proof.
  apply (@getColumns_headers_and_count
           (Document [[[cell "Header"]; [cell "n/a"]]; example1])).
  vm_compute. reflexivity.
Defined.

(** The columns of two runs of tables, one after the other, are the
    columns of the first followed by the columns of the second. *)
Theorem getColumns_app ts1 ts2 c1 c2 :
  getColumns (Document ts1) = Return c1 ->
  getColumns (Document ts2) = Return c2 ->
  getColumns (Document (ts1 ++ ts2)) = Return (c1 ++ c2).
Proof.
  intros H1 H2.
  apply getColumns_inv in H1. destruct H1 as (t1 & E1 & N1 & ->).
  apply getColumns_inv in H2. destruct H2 as (t2 & E2 & N2 & ->).
  injection E1 as <-. injection E2 as <-.
  rewrite getColumns_document, flat_map_app; [reflexivity|].
  destruct ts1; [congruence | discriminate].
Qed.

Lemma getColumns_app_witness :
  getColumns (Document ([example1] ++ example3))
  = Return ([ {| header := lit "Height";
                 values := [ofDecimal false 185 (-2);
                            add (mul (ofDecimal false 6 0) lit_0_3048)
                                (mul (ofDecimal false 1 0) lit_0_0254)] |} ] ++ []).
Proof.
  apply getColumns_app; vm_compute; reflexivity.
Defined.

(** Once the tables are there, nothing in the extraction can fail:
    [getColumns] throws exactly when [getTables] does, and the same
    value. *)
Theorem getColumns_fails_as_getTables page e :
  getColumns page = Throw e <-> getTables page = Throw e.
Proof.
  unfold getColumns. destruct (getTables page) as [tables|e'] eqn:E; cbn [bind].
  - rewrite (getColumns_loop tables []). split; discriminate.
  - split; intros [= ->]; reflexivity.
Qed.

Lemma getColumns_fails_as_getTables_witness :
  getColumns NoText
  = Throw (Error (lit "Failed to get tables: Failed to fetch Wikipedia Content")).
Proof.
  apply (proj2 (getColumns_fails_as_getTables NoText _)).
  vm_compute. reflexivity.
Defined.

(** Every failure of [generateChart] is an [Error] whose message starts
    with "Failed to generate chart: ". What follows is either "No numeric
    columns found in the tables", when there were tables and none gave a
    column, or "Failed to get tables: " and the cause, when there were no
    tables to read. *)
Theorem generateChart_failures page e :
  generateChart page = Throw e ->
  (exists tables,
      page = Document tables /\ tables <> [] /\
      getColumns page = Return [] /\
      e = Error (lit "Failed to generate chart: "
                   ++ lit "No numeric columns found in the tables")) \/
  ((forall tables, page = Document tables -> tables = []) /\
   getTables page = Throw (Error (lit "Failed to get tables: " ++ causeOf page)) /\
   e = Error (lit "Failed to generate chart: "
                ++ lit "Failed to get tables: " ++ causeOf page)).
Proof.
  intros H. destruct page as [e'| |[|t tables]].
  - right. injection H as <-. repeat split. discriminate.
  - right. injection H as <-. repeat split. discriminate.
  - right. injection H as <-. repeat split. now intros ? [= <-].
  - left. exists (t :: tables).
    rewrite generateChart_document in H by discriminate.
    rewrite getColumns_document by discriminate.
    destruct (flat_map columnsOf (t :: tables)); [|discriminate].
    injection H as <-. repeat split. discriminate.
Qed.

Lemma generateChart_failures_witness :
  (exists tables,
      Rejected NotAnError = Document tables /\ tables <> [] /\
      getColumns (Rejected NotAnError) = Return [] /\
      Error (lit "Failed to generate chart: Failed to get tables: Something went wrong")
      = Error (lit "Failed to generate chart: "
                 ++ lit "No numeric columns found in the tables")) \/
  ((forall tables, Rejected NotAnError = Document tables -> tables = []) /\
   getTables (Rejected NotAnError)
   = Throw (Error (lit "Failed to get tables: " ++ causeOf (Rejected NotAnError))) /\
   Error (lit "Failed to generate chart: Failed to get tables: Something went wrong")
   = Error (lit "Failed to generate chart: "
              ++ lit "Failed to get tables: " ++ causeOf (Rejected NotAnError))).
Proof.
  apply (@generateChart_failures (Rejected NotAnError)).
  vm_compute. reflexivity.
Defined.

Lemma scanned_pushesAt table :
  scanned table <> [] <-> exists i v, 1 <= i /\ pushesAt table i v.
Proof.
  destruct (scanned_inRowOrder table) as (idxs & _ & Hge & Hvals & Hall).
  split.
  - intros Hne. destruct Hvals as [|i v idxs' vs Hp _]; [congruence|].
    inversion Hge; subst. eauto.
  - intros (i & v & Hi & Hp) Hnil. apply (Hall i v Hi) in Hp.
    rewrite Hnil in Hvals. inversion Hvals; subst. contradiction.
Qed.

(** [generateChart] succeeds exactly when some table has, after its first
    row, a row whose first cell pushes a value. *)
Theorem generateChart_succeeds_iff tables :
  generateChart (Document tables) = Return tt <->
  exists table i v, In table tables /\ 1 <= i /\ pushesAt table i v.
Proof.
  split.
  - intros H. destruct tables as [|t0 ts]; [discriminate|].
    rewrite generateChart_document in H by discriminate.
    destruct (flat_map columnsOf (t0 :: ts)) as [|c cs] eqn:E; [discriminate|].
    assert (Hin : In c (flat_map columnsOf (t0 :: ts))) by (rewrite E; now left).
    apply in_flat_map in Hin. destruct Hin as (table & Ht & Hc).
    unfold columnsOf in Hc.
    destruct (0 <? List.length (scanned table)) eqn:L; [|contradiction].
    assert (Hne : scanned table <> []).
    { apply Nat.ltb_lt in L. intros Hnil. rewrite Hnil in L. cbn in L. lia. }
    apply scanned_pushesAt in Hne. destruct Hne as (i & v & Hi & Hp).
    exists table, i, v. auto.
  - intros (table & i & v & Ht & Hi & Hp).
    assert (Hne : tables <> []) by (intros ->; contradiction).
    rewrite generateChart_document by assumption.
    assert (Hs : scanned table <> []) by (apply scanned_pushesAt; eauto).
    destruct (flat_map columnsOf tables) as [|c cs] eqn:E; [|reflexivity].
    exfalso.
    assert (Hin : In {| header := lit "Height"; values := scanned table |}
                    (flat_map columnsOf tables)).
    { apply in_flat_map. exists table. split; [exact Ht|].
      unfold columnsOf. destruct (scanned table); [congruence|]. now left. }
    rewrite E in Hin. contradiction.
Qed.

Lemma generateChart_succeeds_iff_witness :
  generateChart (Document [[[cell "Header"]; [cell "n/a"]]; example1]) = Return tt.
Proof.
  apply (proj2 (generateChart_succeeds_iff [[[cell "Header"]; [cell "n/a"]]; example1])).
  exists example1, 3, (add (mul (ofDecimal false 6 0) lit_0_3048)
                            (mul (ofDecimal false 1 0) lit_0_0254)).
  split; [right; left; reflexivity|]. split; [lia|].
  exists (cell "6 ft 1 in"), []. split; [reflexivity|].
  intros columns. vm_compute. reflexivity.
Defined.

(** * Further properties of the branch on the cell text *)

Lemma handleValue_nil columns : handleValue [] columns = Return columns.
Proof. reflexivity. Qed.

(** A text without any digit is skipped, and so is a text that has
    neither the letter [m] nor the letter [i]. *)
Theorem skips_without_digit_or_unit value :
  Forall (fun c => isDigit c = false) value \/
  (~ In (ch "m") value /\ ~ In (ch "i") value) ->
  skips value.
Proof.
  intros [Hd | [Hm Hi]].
  - intros columns. rewrite <- (app_nil_r value).
    rewrite handleValue_skip_prefix by assumption. apply handleValue_nil.
  - destruct (@no_match_without value Hm Hi) as [Em Ef].
    now apply handleValue_no_match.
Qed.

Lemma skips_without_digit_or_unit_witness :
  skips (lit "n/a (metres)") /\ skips (lit "1.85 M").
Proof.
  split; apply skips_without_digit_or_unit.
  - left. repeat constructor.
  - right. split; cbn; intuition discriminate.
Defined.

(** What stands before the first digit of the text never matters: a sign,
    a currency or an approximation mark is dropped. *)
Theorem text_before_first_digit_is_ignored pre value columns :
  Forall (fun c => isDigit c = false) pre ->
  handleValue (pre ++ value) columns = handleValue value columns.
Proof. apply handleValue_skip_prefix. Qed.

Lemma text_before_first_digit_is_ignored_witness :
  handleValue (lit "-5 m") [ {| header := lit "Height"; values := [] |} ]
  = handleValue (lit "5 m") [ {| header := lit "Height"; values := [] |} ].
Proof.
  apply (@text_before_first_digit_is_ignored (lit "-") (lit "5 m")).
  repeat constructor.
Defined.

(** ** Feet and inches *)

Lemma opt_group_plus_greedy g (p : codeunit -> bool) ds rest cap k res :
  ds <> [] -> Forall (fun c => p c = true) ds -> headNot p rest ->
  k rest (setCapture g (Some ds) (clearCaptures [g] cap)) = Some res ->
  rmatch (Opt (Group g (Plus (Class p)))) (ds ++ rest) cap k = Some res.
Proof.
  intros Hne Hds Hr Hk.
  change (rmatch (Opt (Group g (Plus (Class p)))) (ds ++ rest) cap k)
    with (repeatMatcher (rmatch (Group g (Plus (Class p)))) [g]
            (Nat.min 1 (List.length (ds ++ rest))) (ds ++ rest) cap k).
  replace (Nat.min 1 (List.length (ds ++ rest))) with 1.
  2:{ destruct ds; [congruence | reflexivity]. }
  rewrite repeatMatcher_step, rmatch_group.
  rewrite (@plus_class_greedy p ds rest _ _ res); auto.
  rewrite firstn_app_length.
  replace (List.length rest <? List.length (ds ++ rest)) with true.
  - exact Hk.
  - symmetry. apply Nat.ltb_lt. rewrite length_app.
    destruct ds; [congruence | cbn; lia].
Qed.

Lemma headNot_space_digits ds rest :
  ds <> [] -> digits ds -> headNot isWhiteSpace (ds ++ rest).
Proof.
  intros Hne Hds. destruct (digits_cons Hne Hds) as (c & s & -> & Hc).
  cbn. now apply digit_not_space.
Qed.

Lemma headNot_digit_spaces ws (a : ascii) rest :
  isDigit (ch a) = false -> spaces ws -> headNot isDigit (ws ++ ch a :: rest).
Proof.
  intros Ha Hws. destruct ws as [|c ws]; [exact Ha|].
  inversion Hws; subst. cbn.
  destruct (isDigit c) eqn:E; [|reflexivity].
  apply digit_not_space in E. congruence.
Qed.

(** Digits, [ft], digits, [in], with white space between. *)
Lemma feet_here_inches f ws1 ws2 i ws3 post :
  f <> [] -> digits f -> i <> [] -> digits i ->
  spaces ws1 -> spaces ws2 -> spaces ws3 ->
  matchHere FEET_REGEX 2
    (f ++ ws1 ++ ch "f" :: ch "t" :: ws2 ++ i ++ ws3 ++ ch "i" :: ch "n" :: post)
  = Some [Some (f ++ ws1 ++ ch "f" :: ch "t" :: ws2 ++ i ++ ws3 ++ [ch "i"; ch "n"]);
          Some f; Some i].
Proof.
  intros Hnf Hf Hni Hi Hws1 Hws2 Hws3. unfold matchHere, FEET_REGEX.
  rewrite rmatch_seq, rmatch_group.
  apply plus_class_greedy; auto.
  { now apply headNot_digit_spaces. }
  rewrite rmatch_seq.
  apply star_class_greedy; [exact Hws1 | reflexivity |].
  rewrite rmatch_seq, rmatch_char_same.
  rewrite rmatch_seq, rmatch_char_same.
  rewrite rmatch_seq.
  apply star_class_greedy; [exact Hws2 | now apply headNot_space_digits |].
  rewrite rmatch_seq.
  apply opt_group_plus_greedy; auto.
  { now apply headNot_digit_spaces. }
  rewrite rmatch_seq.
  apply star_class_greedy; [exact Hws3 | reflexivity |].
  rewrite rmatch_seq, rmatch_char_same, rmatch_char_same.
  rewrite firstn_app_length.
  replace (f ++ ws1 ++ ch "f" :: ch "t" :: ws2 ++ i ++ ws3 ++ ch "i" :: ch "n" :: post)
    with (f ++ (ws1 ++ ch "f" :: ch "t" :: ws2 ++ i ++ ws3 ++ [ch "i"; ch "n"]) ++ post)
    by list_assoc.
  rewrite firstn_app_length3. reflexivity.
Qed.

(** A text "f ft i in", with any white space (or none) between its four
    parts, pushes the Number f * 0.3048 + i * 0.0254, computed in binary64
    from the Numbers [parseFloat] gives for [f] and [i]. *)
Theorem pushes_feet_and_inches f ws1 ws2 i ws3 :
  f <> [] -> digits f -> i <> [] -> digits i ->
  spaces ws1 -> spaces ws2 -> spaces ws3 ->
  pushes (f ++ ws1 ++ lit "ft" ++ ws2 ++ i ++ ws3 ++ lit "in")
    (add (mul (parseFloat f) lit_0_3048) (mul (parseFloat i) lit_0_0254)).
Proof.
  intros Hnf Hf Hni Hi Hws1 Hws2 Hws3.
  set (value := f ++ ws1 ++ lit "ft" ++ ws2 ++ i ++ ws3 ++ lit "in").
  assert (Hm : str_match value METRES_REGEX 1 = None).
  { destruct (str_match value METRES_REGEX 1) eqn:E; [|reflexivity].
    apply metres_needs_m in E. exfalso. unfold value in E.
    change (f ++ ws1 ++ lit "ft" ++ ws2 ++ i ++ ws3 ++ lit "in")
      with (f ++ ws1 ++ [ch "f"; ch "t"] ++ ws2 ++ i ++ ws3 ++ [ch "i"; ch "n"]) in E.
    rewrite !in_app_iff in E. destruct E as [E|[E|[E|[E|[E|[E|E]]]]]].
    - revert E. now apply (@digits_without "m").
    - revert E. now apply (@spaces_without "m").
    - cbn in E. intuition discriminate.
    - revert E. now apply (@spaces_without "m").
    - revert E. now apply (@digits_without "m").
    - revert E. now apply (@spaces_without "m").
    - cbn in E. intuition discriminate. }
  assert (Hft : str_match value FEET_REGEX 2 = Some [Some value; Some f; Some i]).
  { apply exec_here. apply (@feet_here_inches f ws1 ws2 i ws3 []); auto. }
  destruct (@handleValue_feet _ _ Hm Hft) as [_ Hp].
  unfold feetToMetres in Hp. cbn [group nth truthy parseFloatOf] in Hp.
  destruct i as [|c i]; [congruence|]. exact Hp.
Qed.

Lemma pushes_feet_and_inches_witness :
  pushes (lit "7ft 11 in")
    (add (mul (parseFloat (lit "7")) lit_0_3048)
         (mul (parseFloat (lit "11")) lit_0_0254)).
Proof.
  apply (@pushes_feet_and_inches (lit "7") [] (lit " ") (lit "11") (lit " "));
    try discriminate; repeat constructor.
Defined.

(** ** Two separators *)

Lemma digit_run_align ds1 : forall a r1 ds2 b r2,
  digits ds1 -> digits ds2 -> isDigit a = false -> isDigit b = false ->
  ds1 ++ a :: r1 = ds2 ++ b :: r2 ->
  ds1 = ds2 /\ a = b /\ r1 = r2.
Proof.
  induction ds1 as [|c ds1 IH]; intros a r1 ds2 b r2 H1 H2 Ha Hb E.
  - destruct ds2 as [|c2 ds2]; cbn in E.
    + injection E as -> ->. auto.
    + injection E as -> _. inversion H2; subst. congruence.
  - destruct ds2 as [|c2 ds2]; cbn in E.
    + injection E as -> _. inversion H1; subst. congruence.
    + injection E as -> E. inversion H1; subst. inversion H2; subst.
      destruct (IH a r1 ds2 b r2) as (-> & -> & ->); auto.
Qed.

Lemma matches_metres_word w cap cap' :
  matches METRES_REGEX w cap cap' ->
  exists int sep frac wsp,
    w = (int ++ sep ++ frac) ++ (wsp ++ [ch "m"]) /\
    int <> [] /\ digits int /\ separator sep /\ digits frac /\ spaces wsp.
Proof.
  intros Hw. unfold METRES_REGEX in Hw. repeat unfold_match.
  match goal with H : _ \/ _ |- _ => apply separator_class in H end.
  do 4 eexists. split; [reflexivity|]. auto.
Qed.

(** What follows the digits of a match, when there is no separator or
    after the fraction: white space or the unit. *)
Lemma after_digits_not_separator wsp y (s : codeunit) r :
  spaces wsp -> s = ch "." \/ s = ch "," ->
  wsp ++ ch "m" :: y <> s :: r.
Proof.
  intros Hws Hs E. destruct wsp as [|c wsp]; cbn in E.
  - injection E as E _. destruct Hs as [-> | ->]; discriminate.
  - injection E as -> _. inversion Hws as [|? ? Hc _]; subst.
    destruct Hs as [-> | ->]; discriminate.
Qed.

Lemma separator_not_digit (s : codeunit) :
  s = ch "." \/ s = ch "," -> isDigit s = false.
Proof. intros [-> | ->]; reflexivity. Qed.

Lemma head_after_digits_not_digit wsp y :
  spaces wsp ->
  exists a r, wsp ++ ch "m" :: y = a :: r /\ isDigit a = false.
Proof.
  intros Hws. destruct wsp as [|c wsp]; cbn.
  - eauto.
  - inversion Hws; subst. exists c, (wsp ++ ch "m" :: y). split; [reflexivity|].
    destruct (isDigit c) eqn:E; [|reflexivity].
    apply digit_not_space in E. congruence.
Qed.

(** Digits, a separator, digits, a second separator: no match starts at
    the first digits. *)
Lemma metres_here_blocked d s1 d2 s2 rest :
  digits d -> digits d2 ->
  s1 = ch "." \/ s1 = ch "," -> s2 = ch "." \/ s2 = ch "," ->
  matchHere METRES_REGEX 1 (d ++ s1 :: d2 ++ s2 :: rest) = None.
Proof.
  intros Hd Hd2 Hs1 Hs2.
  destruct (matchHere METRES_REGEX 1 _) as [res|] eqn:E; [exfalso | reflexivity].
  apply matchHere_sound in E. destruct E as (w & y & cap' & Hx & Hw & _).
  apply matches_metres_word in Hw.
  destruct Hw as (int & sep & frac & wsp & -> & _ & Hint & Hsep & Hfrac & Hwsp).
  destruct (head_after_digits_not_digit y Hwsp) as (a & r & Ea & Ha).
  rewrite <- !app_assoc in Hx. cbn [app] in Hx.
  destruct Hsep as [-> | Hsep].
  - (* no separator in the word *)
    cbn [app] in Hx. rewrite Ea, app_assoc in Hx.
    apply digit_run_align in Hx; auto using separator_not_digit.
    + destruct Hx as (_ & -> & _).
      now apply (@after_digits_not_separator wsp y a r).
    + apply Forall_app. split; assumption.
  - assert (Es : exists s, sep = [s] /\ (s = ch "." \/ s = ch ","))
      by (destruct Hsep as [-> | ->]; eauto).
    destruct Es as (s & -> & Hs). cbn [app] in Hx.
    apply digit_run_align in Hx; auto using separator_not_digit.
    destruct Hx as (_ & _ & Hx). rewrite Ea in Hx.
    apply digit_run_align in Hx; auto using separator_not_digit.
    destruct Hx as (_ & -> & _).
    now apply (@after_digits_not_separator wsp y a r).
Qed.

Lemma exec_through_blocked d1 : forall s1 d2 s2 rest,
  digits d1 -> digits d2 ->
  s1 = ch "." \/ s1 = ch "," -> s2 = ch "." \/ s2 = ch "," ->
  exec METRES_REGEX 1 (d1 ++ s1 :: d2 ++ s2 :: rest)
  = exec METRES_REGEX 1 (d2 ++ s2 :: rest).
Proof.
  induction d1 as [|c d1 IH]; intros s1 d2 s2 rest H1 H2 Hs1 Hs2.
  - cbn [app]. rewrite exec_skip; [reflexivity|].
    apply metres_here_not_digit. cbn. now apply separator_not_digit.
  - inversion H1; subst. cbn [app]. rewrite exec_skip.
    + now apply IH.
    + apply (@metres_here_blocked (c :: d1)); auto.
Qed.

(** With two separators, as in "1,234.5 m" or "1.234,5 m", the digits
    before the first separator are lost: the match starts after it, and
    the value pushed is the one of "234.5". *)
Theorem digits_before_first_of_two_separators_are_lost
  d1 s1 d2 s2 d3 ws post :
  digits d1 -> d2 <> [] -> digits d2 -> digits d3 ->
  s1 = ch "." \/ s1 = ch "," -> s2 = ch "." \/ s2 = ch "," ->
  spaces ws ->
  pushes (d1 ++ s1 :: d2 ++ s2 :: d3 ++ ws ++ ch "m" :: post)
    (parseFloat (d2 ++ ch "." :: d3)).
Proof.
  intros H1 Hne H2 H3 Hs1 Hs2 Hws.
  assert (Hm : str_match (d1 ++ s1 :: d2 ++ s2 :: d3 ++ ws ++ ch "m" :: post)
                 METRES_REGEX 1
               = Some [Some (d2 ++ s2 :: d3 ++ ws ++ [ch "m"]); Some (d2 ++ s2 :: d3)]).
  { unfold str_match. rewrite exec_through_blocked by assumption.
    apply exec_here. now apply metres_here_decimal. }
  destruct (handleValue_metres _ Hm) as (g & Hg & _ & Hp).
  cbn [group nth] in Hg. injection Hg as <-.
  now rewrite replace_decimal in Hp.
Qed.

Lemma digits_before_first_of_two_separators_are_lost_witness :
  pushes (lit "1,234.5 m") (parseFloat (lit "234.5")).
Proof.
  apply (@digits_before_first_of_two_separators_are_lost
           (lit "1") (ch ",") (lit "234") (ch ".") (lit "5") (lit " ") []);
    try discriminate; auto; repeat constructor.
Defined.

(** * The title of the page *)

Lemma decodeFrom_plain s :
  ~ In (ch "%") s -> decodeFrom Plain s = Return s.
Proof.
  induction s as [|c s IH]; intros H; [reflexivity|].
  cbn [decodeFrom].
  destruct (N.eqb c (ch "%")) eqn:E.
  - apply N.eqb_eq in E. subst c. exfalso. apply H. now left.
  - rewrite IH; [reflexivity|]. intros Hin. apply H. now right.
Qed.

Lemma splitFrom_none sep s : forall cur,
  indexOf sep s = None -> splitFrom sep s cur 0 = [rev cur ++ s].
Proof.
  induction s as [|c s IH]; intros cur H.
  - cbn. now rewrite app_nil_r.
  - cbn [indexOf] in H. cbn [splitFrom].
    destruct (startsWith sep (c :: s)); [discriminate|].
    destruct (indexOf sep s); [discriminate|].
    rewrite IH by reflexivity. cbn [rev]. now rewrite <- app_assoc.
Qed.

Lemma splitFrom_skip sep w : forall s cur,
  splitFrom sep (w ++ s) cur (List.length w) = splitFrom sep s cur 0.
Proof.
  induction w as [|c w IH]; intros s cur; [reflexivity|]. cbn. apply IH.
Qed.

Lemma splitFrom_first c0 sep' base : forall title cur,
  indexOf (c0 :: sep') (base ++ (c0 :: sep') ++ title) = Some (List.length base) ->
  splitFrom (c0 :: sep') (base ++ (c0 :: sep') ++ title) cur 0
  = (rev cur ++ base) :: splitFrom (c0 :: sep') title [] 0.
Proof.
  induction base as [|b base IH]; intros title cur H.
  - cbn [app List.length] in *. cbn [indexOf] in H. cbn [splitFrom].
    destruct (startsWith (c0 :: sep') (c0 :: sep' ++ title)) eqn:E.
    + rewrite app_nil_r. f_equal.
      replace (List.length (c0 :: sep') - 1) with (List.length sep') by (cbn; lia).
      apply splitFrom_skip.
    + destruct (indexOf (c0 :: sep') (sep' ++ title)); discriminate.
  - cbn [app List.length] in *. cbn [indexOf] in H. cbn [splitFrom].
    destruct (startsWith (c0 :: sep') (b :: base ++ c0 :: sep' ++ title));
      [discriminate|].
    destruct (indexOf (c0 :: sep') (base ++ c0 :: sep' ++ title)) as [n|] eqn:E;
      [|discriminate].
    injection H as ->. rewrite (IH title (b :: cur)) by exact E.
    cbn [rev]. now rewrite <- app_assoc.
Qed.

Lemma getPageTitle_last_piece base title :
  indexOf (lit "/wiki/") (base ++ lit "/wiki/" ++ title) = Some (List.length base) ->
  indexOf (lit "/wiki/") title = None ->
  getPageTitle (base ++ lit "/wiki/" ++ title) = decodeURIComponent title.
Proof.
  intros H1 H2. unfold getPageTitle, split.
  change (lit "/wiki/") with (ch "/" :: lit "wiki/") in *.
  rewrite splitFrom_first by exact H1.
  rewrite splitFrom_none by exact H2. reflexivity.
Qed.

(** For a url of the form base, "/wiki/", title, where that "/wiki/" is
    the first in the url and the title holds none, the page title is the
    decoded title: the title itself when it has no percent sign. *)
Theorem getPageTitle_after_wiki base title :
  indexOf (lit "/wiki/") (base ++ lit "/wiki/" ++ title) = Some (List.length base) ->
  indexOf (lit "/wiki/") title = None ->
  getPageTitle (base ++ lit "/wiki/" ++ title) = decodeURIComponent title /\
  (~ In (ch "%") title ->
   getPageTitle (base ++ lit "/wiki/" ++ title) = Return title).
Proof.
  intros H1 H2. pose proof (getPageTitle_last_piece base title H1 H2) as E.
  split; [exact E|]. intros Hp. rewrite E. now apply decodeFrom_plain.
Qed.

Lemma getPageTitle_after_wiki_witness :
  getPageTitle (lit "https://en.wikipedia.org" ++ lit "/wiki/" ++ lit "High_jump")
  = decodeURIComponent (lit "High_jump") /\
  (~ In (ch "%") (lit "High_jump") ->
   getPageTitle (lit "https://en.wikipedia.org" ++ lit "/wiki/" ++ lit "High_jump")
   = Return (lit "High_jump")).
Proof.
  apply getPageTitle_after_wiki; vm_compute; reflexivity.
Defined.

(** A url without "/wiki/" is taken whole as the title. *)
Theorem getPageTitle_without_wiki url :
  indexOf (lit "/wiki/") url = None ->
  getPageTitle url = decodeURIComponent url.
Proof.
  intros H. unfold getPageTitle, split.
  change (lit "/wiki/") with (ch "/" :: lit "wiki/") in *.
  rewrite splitFrom_none by exact H. reflexivity.
Qed.

Lemma getPageTitle_without_wiki_witness :
  getPageTitle (lit "https://en.wikipedia.org/w/index.php?title=High_jump")
  = decodeURIComponent (lit "https://en.wikipedia.org/w/index.php?title=High_jump").
Proof.
  apply getPageTitle_without_wiki. vm_compute. reflexivity.
Defined.

(** ** An escape cut short *)

Lemma bind_throw (A B : Type) (r : result A) (f : A -> result B) e :
  r = Throw e -> bind r f = Throw e.
Proof. now intros ->. Qed.

Lemma decodeFrom_trailing_percent s : forall st,
  decodeFrom st (s ++ [ch "%"]) = Throw uriError.
Proof.
  induction s as [|c s IH]; intros st.
  - destruct st as [|seq [d|]|missing bits low]; reflexivity.
  - cbn [app decodeFrom].
    destruct st as [|seq [d|]|missing bits low].
    + destruct (N.eqb c (ch "%")); [apply IH|]. now rewrite IH.
    + destruct (hexValue c) as [d2|]; [|reflexivity].
      destruct seq as [[[missing bits] low]|].
      * destruct (_ && _)%bool; [|reflexivity].
        destruct missing as [|[|m]]; try apply IH;
          (destruct (validCodePoint _ low); [now rewrite IH | reflexivity]).
      * repeat (destruct (_ <? _)%N; try apply IH; try reflexivity).
        now rewrite IH.
    + destruct (hexValue c); [apply IH | reflexivity].
    + destruct (N.eqb c (ch "%")); [apply IH | reflexivity].
Qed.

(** A url whose title ends with a percent sign: [getPageTitle] throws a
    URIError, and [getTables] wraps it like any other failure, whatever
    the network would have answered. *)
Theorem title_ending_in_percent fetchPage base title :
  indexOf (lit "/wiki/") (base ++ lit "/wiki/" ++ title ++ lit "%")
    = Some (List.length base) ->
  indexOf (lit "/wiki/") (title ++ lit "%") = None ->
  getPageTitle (base ++ lit "/wiki/" ++ title ++ lit "%") = Throw uriError /\
  getTables (pageOf fetchPage (base ++ lit "/wiki/" ++ title ++ lit "%"))
    = Throw (Error (lit "Failed to get tables: URI malformed")).
Proof.
  intros H1 H2.
  assert (E : getPageTitle (base ++ lit "/wiki/" ++ title ++ lit "%") = Throw uriError).
  { rewrite getPageTitle_last_piece by assumption.
    apply decodeFrom_trailing_percent. }
  split; [exact E|]. unfold pageOf. rewrite E. reflexivity.
Qed.

Lemma title_ending_in_percent_witness :
  getPageTitle (lit "https://en.wikipedia.org" ++ lit "/wiki/" ++ lit "100" ++ lit "%")
    = Throw uriError /\
  getTables (pageOf (fun _ => Document [example1])
               (lit "https://en.wikipedia.org" ++ lit "/wiki/" ++ lit "100" ++ lit "%"))
    = Throw (Error (lit "Failed to get tables: URI malformed")).
Proof.
  apply title_ending_in_percent; vm_compute; reflexivity.
Defined.

(** * The chart *)

Lemma getTables_throw page e :
  getTables page = Throw e ->
  e = Error (lit "Failed to get tables: " ++ causeOf page) /\
  forall tables, page = Document tables -> tables = [].
Proof.
  destruct page as [e'| |[|t tables]]; cbn; intros [= <-];
    (split; [reflexivity|]); intros ? [=]; congruence.
Qed.

Lemma getColumns_throw page e :
  getColumns page = Throw e -> getTables page = Throw e.
Proof.
  unfold getColumns. destruct (getTables page) as [tables|e'] eqn:E; cbn [bind].
  - rewrite (getColumns_loop tables []). discriminate.
  - now intros [= ->].
Qed.

Lemma first_column tables : forall c cs,
  flat_map columnsOf tables = c :: cs ->
  exists ts1 t ts2,
    tables = ts1 ++ t :: ts2 /\
    Forall (fun t' => heights t' = []) ts1 /\
    values c = heights t /\ heights t <> [].
Proof.
  induction tables as [|t tables IH]; intros c cs H; [discriminate|].
  cbn [flat_map] in H. unfold columnsOf at 1 in H.
  destruct (0 <? List.length (scanned t)) eqn:L.
  - cbn [app] in H. injection H as <- _.
    exists [], t, tables. rewrite heights_scanned. repeat split; auto.
    apply Nat.ltb_lt in L. intros E. rewrite E in L. cbn in L. lia.
  - cbn [app] in H. destruct (IH c cs H) as (ts1 & t' & ts2 & -> & Hall & Hv & Hne).
    exists (t :: ts1), t', ts2. repeat split; auto.
    constructor; [|exact Hall]. rewrite heights_scanned.
    apply Nat.ltb_ge in L. destruct (scanned t); [reflexivity | cbn in L; lia].
Qed.

Lemma nth_recordLabels n k :
  k < n -> nth k (Final.recordLabels n) [] = lit "Record " ++ Final.decimal (k + 1).
Proof.
  intros Hk. unfold Final.recordLabels.
  set (f := fun i : nat => lit "Record " ++ Final.decimal (i + 1)).
  rewrite (nth_indep _ [] (f 0)) by (now rewrite length_map, length_seq).
  rewrite map_nth, seq_nth by assumption. reflexivity.
Qed.

(** When [saveChart] succeeds, the file has the name asked for, the data
    are the values of the first column only, and there is one label per
    value: "Record 1", "Record 2", and so on. *)
Theorem saveChart_first_column_and_labels context url columnData fileName d :
  Final.saveChart context url columnData fileName = Return d ->
  Final.download d = fileName /\
  (exists c0 others,
      columnData = c0 :: others /\ Final.data (Final.chart d) = values c0) /\
  List.length (Final.labels (Final.chart d))
    = List.length (Final.data (Final.chart d)) /\
  forall k,
    k < List.length (Final.data (Final.chart d)) ->
    nth k (Final.labels (Final.chart d)) []
    = lit "Record " ++ Final.decimal (k + 1).
Proof.
  unfold Final.saveChart. destruct context; [|discriminate]. cbn [negb].
  destruct columnData as [|c0 others]; [discriminate|].
  destruct (getPageTitle url) as [text|e]; [|discriminate].
  cbn [bind]. intros [= <-]. cbn. repeat split.
  - eauto.
  - unfold Final.recordLabels. now rewrite length_map, length_seq.
  - apply nth_recordLabels.
Qed.

Lemma saveChart_first_column_and_labels_witness :
  nth 1 (Final.recordLabels 2) [] = lit "Record " ++ Final.decimal (1 + 1).
Proof.
  destruct (@saveChart_first_column_and_labels true
              (lit "https://en.wikipedia.org/wiki/High_jump")
              [ {| header := lit "Height";
                   values := [ofDecimal false 185 (-2); ofDecimal false 2 0] |};
                {| header := lit "Height"; values := [ofDecimal false 3 0] |} ]
              (lit "chart.png")
              {| Final.download := lit "chart.png";
                 Final.chart :=
                   {| Final.labels := Final.recordLabels 2;
                      Final.data := [ofDecimal false 185 (-2); ofDecimal false 2 0];
                      Final.title := lit "High_jump" |} |})
    as (_ & _ & _ & H).
  - vm_compute. reflexivity.
  - apply (H 1). cbn. lia.
Defined.

(** When the last draft of [generateChart] succeeds, the canvas gave a
    context, the title of the chart is the page title, and the data are
    the heights of the first table of the page that has any: the tables
    before it have none, the tables after it are not drawn. *)
Theorem generateChart_draws_first_table fetchPage context url fileName d :
  Final.generateChart fetchPage context url fileName = Return d ->
  context = true /\
  Final.download d = fileName /\
  getPageTitle url = Return (Final.title (Final.chart d)) /\
  exists ts1 t ts2,
    pageOf fetchPage url = Document (ts1 ++ t :: ts2) /\
    Forall (fun t' => heights t' = []) ts1 /\
    heights t <> [] /\
    Final.data (Final.chart d) = heights t.
Proof.
  unfold Final.generateChart. intros H.
  destruct (getColumns (pageOf fetchPage url)) as [columns|e] eqn:E;
    [|discriminate].
  cbn [bind tryCatch] in H.
  apply getColumns_inv in E. destruct E as (tables & Hp & _ & ->).
  destruct (flat_map columnsOf tables) as [|c cs] eqn:Ec; [discriminate|].
  cbn [List.length Nat.eqb] in H. unfold Final.saveChart, tryCatch in H.
  destruct context; [|discriminate]. cbn [negb] in H.
  destruct (getPageTitle url) as [text|e]; [|discriminate].
  cbn [bind] in H. injection H as <-. cbn.
  destruct (first_column _ Ec) as (ts1 & t & ts2 & -> & Hall & Hv & Hne).
  repeat split. exists ts1, t, ts2. auto.
Qed.

Lemma generateChart_draws_first_table_witness :
  exists ts1 t ts2,
    pageOf (fun _ => Document [[[cell "Header"]; [cell "n/a"]]; example1; example1])
      (lit "https://en.wikipedia.org/wiki/High_jump")
    = Document (ts1 ++ t :: ts2) /\
    Forall (fun t' => heights t' = []) ts1 /\
    heights t <> [] /\
    [ofDecimal false 185 (-2);
     add (mul (ofDecimal false 6 0) lit_0_3048)
         (mul (ofDecimal false 1 0) lit_0_0254)] = heights t.
Proof.
  destruct (@generateChart_draws_first_table
              (fun _ => Document [[[cell "Header"]; [cell "n/a"]]; example1; example1])
              true (lit "https://en.wikipedia.org/wiki/High_jump") (lit "chart.png")
              {| Final.download := lit "chart.png";
                 Final.chart :=
                   {| Final.labels := Final.recordLabels 2;
                      Final.data :=
                        [ofDecimal false 185 (-2);
                         add (mul (ofDecimal false 6 0) lit_0_3048)
                             (mul (ofDecimal false 1 0) lit_0_0254)];
                      Final.title := lit "High_jump" |} |})
    as (_ & _ & _ & H).
  - vm_compute. reflexivity.
  - exact H.
Defined.

(** Every failure of the last draft of [generateChart] is an [Error]
    whose message starts with "Failed to generate chart: " and goes on in
    one of three ways: the tables could not be had; they gave no column;
    or there were columns and the canvas gave no context. Reading
    [columnData[0]] never fails, and the title, read a second time for the
    chart, does not fail either. *)
Theorem generateChart_final_failures fetchPage context url fileName e :
  Final.generateChart fetchPage context url fileName = Throw e ->
  exists msg,
    e = Error (lit "Failed to generate chart: " ++ msg) /\
    ((msg = lit "Failed to get tables: " ++ causeOf (pageOf fetchPage url) /\
      getTables (pageOf fetchPage url) = Throw (Error msg)) \/
     (msg = lit "No numeric columns found in the tables" /\
      getColumns (pageOf fetchPage url) = Return []) \/
     (msg = lit "Could not get canvas context" /\
      context = false /\
      exists columns,
        getColumns (pageOf fetchPage url) = Return columns /\ columns <> [])).
Proof.
  unfold Final.generateChart. intros H.
  destruct (getColumns (pageOf fetchPage url)) as [columns|e'] eqn:E.
  - cbn [bind tryCatch] in H. destruct columns as [|c cs].
    + cbn [List.length Nat.eqb] in H. injection H as <-.
      eexists. split; [reflexivity|]. right. left. auto.
    + cbn [List.length Nat.eqb] in H. unfold Final.saveChart in H.
      destruct context.
      * exfalso. cbn [negb] in H.
        apply getColumns_inv in E. destruct E as (tables & Hp & _ & _).
        unfold pageOf in Hp.
        destruct (getPageTitle url) as [text|e2]; [discriminate | discriminate].
      * cbn [negb] in H. injection H as <-.
        eexists. split; [reflexivity|]. right. right.
        repeat split. exists (c :: cs). split; [reflexivity | discriminate].
  - cbn [bind tryCatch] in H. injection H as <-.
    apply getColumns_throw in E. pose proof (getTables_throw _ E) as [-> _].
    eexists. split; [reflexivity|]. left. split; [reflexivity | exact E].
Qed.

Lemma generateChart_final_failures_witness :
  exists msg,
    Error (lit "Failed to generate chart: Could not get canvas context")
    = Error (lit "Failed to generate chart: " ++ msg) /\
    ((msg = lit "Failed to get tables: "
              ++ causeOf (pageOf (fun _ => Document [example1])
                            (lit "https://en.wikipedia.org/wiki/High_jump")) /\
      getTables (pageOf (fun _ => Document [example1])
                   (lit "https://en.wikipedia.org/wiki/High_jump"))
      = Throw (Error msg)) \/
     (msg = lit "No numeric columns found in the tables" /\
      getColumns (pageOf (fun _ => Document [example1])
                    (lit "https://en.wikipedia.org/wiki/High_jump")) = Return []) \/
     (msg = lit "Could not get canvas context" /\
      false = false /\
      exists columns,
        getColumns (pageOf (fun _ => Document [example1])
                      (lit "https://en.wikipedia.org/wiki/High_jump"))
        = Return columns /\ columns <> [])).
Proof.
  apply (@generateChart_final_failures (fun _ => Document [example1]) false
           (lit "https://en.wikipedia.org/wiki/High_jump") (lit "chart.png")).
  vm_compute. reflexivity.
Defined.

(** The url counts through its title only: two urls with the same title
    after their first "/wiki/", whatever stands before, are charted
    alike. *)
Theorem generateChart_same_title fetchPage context base1 base2 title fileName :
  indexOf (lit "/wiki/") (base1 ++ lit "/wiki/" ++ title) = Some (List.length base1) ->
  indexOf (lit "/wiki/") (base2 ++ lit "/wiki/" ++ title) = Some (List.length base2) ->
  indexOf (lit "/wiki/") title = None ->
  Final.generateChart fetchPage context (base1 ++ lit "/wiki/" ++ title) fileName
  = Final.generateChart fetchPage context (base2 ++ lit "/wiki/" ++ title) fileName.
Proof.
  intros H1 H2 Ht. unfold Final.generateChart, pageOf, Final.saveChart.
  now rewrite !getPageTitle_last_piece by assumption.
Qed.

Lemma generateChart_same_title_witness :
  Final.generateChart (fun _ => Document [example1]) true
    (lit "https://de.wikipedia.org" ++ lit "/wiki/" ++ lit "High_jump") (lit "chart.png")
  = Final.generateChart (fun _ => Document [example1]) true
      (lit "https://en.m.wikipedia.org" ++ lit "/wiki/" ++ lit "High_jump") (lit "chart.png").
Proof.
  apply generateChart_same_title; vm_compute; reflexivity.
Defined.

(** * The form *)

Import DetectorInspector.

Lemma startsWith_app pre s : startsWith pre (pre ++ s) = true.
Proof.
  induction pre as [|c pre IH]; [reflexivity|].
  cbn. now rewrite N.eqb_refl.
Qed.

Lemma endsWith_app pre suffix : endsWith (pre ++ suffix) suffix = true.
Proof.
  unfold endsWith. rewrite rev_app_distr. apply startsWith_app.
Qed.

Lemma isEmpty_false_iff (s : jsstring) : isEmpty s = false <-> s <> [].
Proof. destruct s; cbn; split; congruence. Qed.

(** What [onChangeURL] leaves as error depends on the new value only. *)
Lemma onChangeURL_state hostnameOf value st :
  url (onChangeURL hostnameOf value st) = value /\
  loading (onChangeURL hostnameOf value st) = loading st /\
  error (onChangeURL hostnameOf value st) =
  if isEmpty value then lit ""
  else match hostnameOf value with
       | Some hostname =>
           if endsWith hostname (lit "wikipedia.org") then lit ""
           else lit "Please enter a valid Wikipedia URL"
       | None => lit "Please enter a valid URL"
       end.
Proof.
  unfold onChangeURL, validateUrl.
  destruct (isEmpty value); cbn [negb]; [repeat split|].
  destruct (hostnameOf value) as [hostname|]; [|repeat split].
  destruct (endsWith hostname (lit "wikipedia.org")); repeat split.
Qed.

(** After a change of the field, whatever the state was before, the Scan
    button is enabled exactly when the value is not empty, parses as a
    url, and its host name ends with "wikipedia.org". *)
Theorem scan_enabled_after_change hostnameOf value st :
  scanDisabled (onChangeURL hostnameOf value st) = false <->
  value <> [] /\
  exists hostname,
    hostnameOf value = Some hostname /\
    endsWith hostname (lit "wikipedia.org") = true.
Proof.
  destruct (onChangeURL_state hostnameOf value st) as (Hu & _ & He).
  unfold scanDisabled. rewrite Hu, He.
  destruct value as [|c value]; cbn [isEmpty].
  - split; [discriminate | intros [H _]; congruence].
  - destruct (hostnameOf (c :: value)) as [hostname|].
    + destruct (endsWith hostname (lit "wikipedia.org")) eqn:E.
      * split; [|reflexivity]. intros _. split; [discriminate | eauto].
      * split; [discriminate|]. intros (_ & h & [= <-] & E'). congruence.
    + split; [discriminate|]. intros (_ & h & [=] & _).
Qed.

Lemma scan_enabled_after_change_witness :
  scanDisabled
    (onChangeURL (fun _ => Some (lit "en.wikipedia.org"))
       (lit "https://en.wikipedia.org/wiki/High_jump")
       {| url := lit "x"; error := lit "Please enter a valid URL"; loading := false |})
  = false.
Proof.
  apply (proj2 (scan_enabled_after_change _ _ _)).
  split; [discriminate|].
  exists (lit "en.wikipedia.org"). split; reflexivity.
Defined.

(** The test on the host name is on its last characters only: any host
    name that ends with the letters "wikipedia.org", with or without a dot
    before them, enables the button and leaves no error. *)
Theorem any_host_ending_in_wikipedia_org hostnameOf value st before :
  value <> [] ->
  hostnameOf value = Some (before ++ lit "wikipedia.org") ->
  error (onChangeURL hostnameOf value st) = lit "" /\
  scanDisabled (onChangeURL hostnameOf value st) = false.
Proof.
  intros Hne Hh.
  destruct (onChangeURL_state hostnameOf value st) as (Hu & _ & He).
  unfold scanDisabled. rewrite Hu, He, Hh, endsWith_app.
  destruct value; [congruence|]. split; reflexivity.
Qed.

Lemma any_host_ending_in_wikipedia_org_witness :
  error (onChangeURL (fun _ => Some (lit "not-" ++ lit "wikipedia.org"))
           (lit "https://not-wikipedia.org/wiki/X")
           {| url := lit ""; error := lit ""; loading := false |}) = lit "" /\
  scanDisabled
    (onChangeURL (fun _ => Some (lit "not-" ++ lit "wikipedia.org"))
       (lit "https://not-wikipedia.org/wiki/X")
       {| url := lit ""; error := lit ""; loading := false |}) = false.
Proof.
  apply (@any_host_ending_in_wikipedia_org _ _ _ (lit "not-")).
  - discriminate.
  - reflexivity.
Defined.

Lemma generateChart_final_prefix fetchPage context u fileName e :
  Final.generateChart fetchPage context u fileName = Throw e ->
  exists msg, e = Error (lit "Failed to generate chart: " ++ msg).
Proof.
  unfold Final.generateChart.
  match goal with |- tryCatch ?body _ = _ -> _ => destruct body end;
    cbn [tryCatch]; [discriminate|]. intros [= <-]. eexists. reflexivity.
Qed.

(** When a scan has settled, the form is no longer loading and the url is
    as it was. After a success there is no error. After a failure the
    error shown starts with "Failed to generate chart: ", and the Scan
    button is disabled, until the field is changed. *)
Theorem scan_settles fetchPage context st :
  let generate := fun u => Final.generateChart fetchPage context u (lit "chart.png") in
  let st' := onScan generate st in
  loading st' = false /\
  url st' = url st /\
  match generate (url st) with
  | Return _ => error st' = lit ""
  | Throw _ =>
      startsWith (lit "Failed to generate chart: ") (error st') = true /\
      scanDisabled st' = true
  end.
Proof.
  cbv zeta. unfold onScan.
  destruct (Final.generateChart fetchPage context (url st) (lit "chart.png"))
    as [d|e] eqn:E.
  - repeat split.
  - apply generateChart_final_prefix in E. destruct E as (msg & ->).
    cbn [setLoading setError loading url error].
    split; [reflexivity|]. split; [reflexivity|].
    split; [apply startsWith_app | reflexivity].
Qed.
